(** * rcopy: collect files of a directory tree into one folder

    A shallow embedding of [rcopy.py] and the properties of its
    specification.  The three functions of the program are embedded one to
    one: [filenames_with_index] (a generator, here a suspended frame with a
    [next] function), [copyfile] and [rcopy] (here computations over a file
    system and the standard output, which may raise an [OSError]).

    The library calls the program makes are modelled next to them:
    [pathlib]'s [stem] and [suffix], [Path.exists], [shutil.copyfile],
    [shutil.move] and [Path.walk] on POSIX paths.  Two things the libraries
    leave open stay parameters of [rcopy]: the matcher [fnmatch] and the
    order in which a directory lists its entries. *)

From Stdlib Require Import Ascii.
From stdpp Require Import base strings gmap list sorting pretty.

Open Scope string_scope.
Open Scope list_scope.
Open Scope Z_scope.

(** ** Strings *)

Module Str.

(** [s[n:]] and [s[:n]] for [0 <= n]. *)
Fixpoint drop (n : nat) (s : string) : string :=
  match n, s with
  | O, _ => s
  | S n', String _ s' => drop n' s'
  | S _, EmptyString => EmptyString
  end.

Fixpoint take (n : nat) (s : string) : string :=
  match n, s with
  | O, _ => EmptyString
  | S n', String a s' => String a (take n' s')
  | S _, EmptyString => EmptyString
  end.

(** [len(s)]. *)
Definition len (s : string) : Z := Z.of_nat (String.length s).

(** [s.rfind(c)]: the highest index of [c] in [s], [-1] when absent. *)
Fixpoint rfind (c : ascii) (s : string) : Z :=
  match s with
  | EmptyString => -1
  | String a s' =>
      let r := rfind c s' in
      if 0 <=? r then r + 1
      else if bool_decide (a = c) then 0 else -1
  end.

(** [c in s]. *)
Fixpoint mem (c : ascii) (s : string) : bool :=
  match s with
  | EmptyString => false
  | String a s' => bool_decide (a = c) || mem c s'
  end.

End Str.

(** ** pathlib: the final component of a path

    A file name is one component of a path, as [Path.walk] lists them: a
    string without ['/'] that is not ["."], for which [Path(name).name] is
    [name].  [suffix] and [stem] are those of
    [pathlib.PurePath] (Python 3.12, the first version with [Path.walk]):

<<
    i = name.rfind('.')
    if 0 < i < len(name) - 1: return name[i:]     # suffix
    else: return ''
>>
    and [stem] is [name[:i]] under the same test, [name] otherwise. *)

Definition dot : ascii := "."%char.

Definition has_suffix (name : string) : bool :=
  let i := Str.rfind dot name in
  (0 <? i) && (i <? Str.len name - 1).

Definition suffix (name : string) : string :=
  if has_suffix name then Str.drop (Z.to_nat (Str.rfind dot name)) name
  else "".

Definition stem (name : string) : string :=
  if has_suffix name then Str.take (Z.to_nat (Str.rfind dot name)) name
  else name.

(** ** The name sequencer: [filenames_with_index] *)

(** The value of one [yield]:
    [name.stem + (f"({index})" if index else "") + name.suffix]. *)
Definition candidate (name : string) (index : Z) : string :=
  stem name
  +:+ (if bool_decide (index ≠ 0) then "(" +:+ pretty index +:+ ")" else "")
  +:+ suffix name.

(** Where the generator's frame is suspended. *)
Inductive frame : Type :=
  | NotStarted
  | AtYield (index : Z)
  | Exhausted.

Record generator : Type := Generator {
  gen_name : string;
  gen_max_index : option Z;
  gen_frame : frame
}.

(** Calling the generator function runs no code: it builds the frame. *)
Definition filenames_with_index (name : string) (max_index : option Z)
  : generator :=
  Generator name max_index NotStarted.

(** [max_index is not None and index == max_index] *)
Definition at_max_index (max_index : option Z) (index : Z) : bool :=
  match max_index with
  | None => false
  | Some m => index =? m
  end.

(** [next(g)]: run the frame to its next [yield] ([Some] value) or to its
    [return] ([None], Python's [StopIteration]). *)
Definition next (g : generator) : option string * generator :=
  let '(Generator name max_index fr) := g in
  match fr with
  | NotStarted =>
      (Some (candidate name 0), Generator name max_index (AtYield 0))
  | AtYield index =>
      if at_max_index max_index index
      then (None, Generator name max_index Exhausted)
      else (Some (candidate name (index + 1)),
            Generator name max_index (AtYield (index + 1)))
  | Exhausted => (None, g)
  end.

(** The first [n] values of [g] (fewer when it stops before):
    [list(itertools.islice(g, n))]. *)
Fixpoint islice (n : nat) (g : generator) : list string :=
  match n with
  | O => []
  | S n' =>
      match next g with
      | (Some v, g') => v :: islice n' g'
      | (None, _) => []
      end
  end.

(** That the generator is exhausted within [n] calls of [next]. *)
Fixpoint stops_within (n : nat) (g : generator) : bool :=
  match n with
  | O => false
  | S n' =>
      match next g with
      | (Some _, g') => stops_within n' g'
      | (None, _) => true
      end
  end.

(** The value at position [k] of the sequence, counted from [0]. *)
Definition nth_candidate (g : generator) (k : nat) : option string :=
  islice (S k) g !! k.

(** ** Paths and the file system

    A path is absolute and given by its components: [["src"; "1"]] is
    [/src/1].  The file system maps the paths that exist to what they are,
    a regular file with its bytes or a directory (there are no symbolic
    links). *)

Abbreviation Path := (list string).

(** [p / name] *)
Definition joinpath (p : Path) (name : string) : Path := p ++ [name].

(** [p.parent] *)
Definition parent (p : Path) : Path := removelast p.

(** [p.name], the final component. *)
Definition basename (p : Path) : string := List.last p "".

(** [str(p)] *)
Definition path_str (p : Path) : string :=
  match p with
  | [] => "/"
  | _ => foldr (λ c acc, "/" +:+ c +:+ acc) "" p
  end.

Inductive node : Type :=
  | File (content : string)
  | Directory.

Global Instance node_eq_dec : EqDecision node.
Proof. solve_decision. Defined.

Record world : Type := World {
  fs : gmap Path node;
  stdout : list string
}.

Inductive OSError : Type :=
  | FileNotFoundError (p : Path)
  | IsADirectoryError (p : Path)
  | NotADirectoryError (p : Path)
  | SameFileError (p : Path)
  | DestinationExists (p : Path).

(** How a computation ends: with a value, with an exception that nothing
    catches, or not within the steps it was given. *)
Inductive outcome (A : Type) : Type :=
  | Return (a : A)
  | Raise (e : OSError)
  | OutOfFuel.
Global Arguments Return {A} a.
Global Arguments Raise {A} e.
Global Arguments OutOfFuel {A}.

Definition M (A : Type) : Type := world → outcome A * world.

Definition ret {A} (a : A) : M A := λ w, (Return a, w).

Definition bind {A B} (m : M A) (k : A → M B) : M B := λ w,
  match m w with
  | (Return a, w') => k a w'
  | (Raise e, w') => (Raise e, w')
  | (OutOfFuel, w') => (OutOfFuel, w')
  end.

Definition raise {A} (e : OSError) : M A := λ w, (Raise e, w).

Notation "x <- m ;; k" := (bind m (λ x, k))
  (at level 100, m at next level, right associativity).
Notation "m ;;; k" := (bind m (λ _, k))
  (at level 100, right associativity).

(** [if b: m] *)
Definition when (b : bool) (m : M unit) : M unit :=
  if b then m else ret tt.

(** [print(line)] *)
Definition print (line : string) : M unit := λ w,
  (Return tt, World (fs w) (stdout w ++ [line])).

(** [p.exists()] *)
Definition path_exists (p : Path) : M bool := λ w,
  (Return (bool_decide (is_Some (fs w !! p))), w).

(** Opening [p] for writing creates it in its directory, which has to
    exist; a directory cannot be opened. *)
Definition check_writable (m : gmap Path node) (p : Path) : option OSError :=
  match m !! p with
  | Some Directory => Some (IsADirectoryError p)
  | _ =>
      match m !! parent p with
      | Some Directory => None
      | Some (File _) => Some (NotADirectoryError p)
      | None => Some (FileNotFoundError p)
      end
  end.

(** [shutil.copyfile(src, dst)]: the bytes of [src] are written to [dst],
    which is created, or truncated when it exists. *)
Definition shutil_copyfile (src dst : Path) : M unit := λ w,
  match fs w !! src with
  | None => (Raise (FileNotFoundError src), w)
  | Some Directory => (Raise (IsADirectoryError src), w)
  | Some (File content) =>
      if bool_decide (src = dst) then (Raise (SameFileError src), w)
      else
        match check_writable (fs w) dst with
        | Some e => (Raise e, w)
        | None => (Return tt, World (<[dst := File content]> (fs w)) (stdout w))
        end
  end.

(** [shutil.move(src, dst)] of a source that is not a directory: into
    [dst] when that is a directory, else [os.rename(src, dst)], which
    replaces an existing file.  The library renames a source that is a
    directory, with all that is below it; that is outside this model,
    which refuses such a source.  No run of [rcopy] moves one: the walk
    hands over the entries of a directory that are not directories, and
    they are regular files when their turn comes
    ([rcopy_transfers_regular_files]). *)
Definition shutil_move (src dst : Path) : M unit := λ w,
  let real_dst :=
    match fs w !! dst with
    | Some Directory => joinpath dst (basename src)
    | _ => dst
    end in
  match fs w !! dst, fs w !! real_dst with
  | Some Directory, Some _ => (Raise (DestinationExists real_dst), w)
  | _, _ =>
      match fs w !! src with
      | None => (Raise (FileNotFoundError src), w)
      | Some Directory => (Raise (IsADirectoryError src), w)
      | Some (File content) =>
          match check_writable (fs w) real_dst with
          | Some e => (Raise e, w)
          | None =>
              (Return tt,
               World (<[real_dst := File content]> (delete src (fs w)))
                     (stdout w))
          end
      end
  end.

(** ** [copyfile] *)

Definition copyfile (src dst : Path) (move quiet dryrun : bool) : M bool :=
  e <- path_exists dst ;;
  if e then ret false
  else
    (if move then
       when (negb quiet)
         (print ("Move " +:+ path_str src +:+ " -> " +:+ path_str dst)) ;;;
       when (negb dryrun) (shutil_move src dst)
     else
       when (negb quiet)
         (print ("Copy " +:+ path_str src +:+ " -> " +:+ path_str dst)) ;;;
       when (negb dryrun) (shutil_copyfile src dst)) ;;;
    ret true.

(** ** [rcopy] *)

(** The innermost loop,
    [for dst_filename in filenames_with_index(filename)], with its body.
    The generator is unbounded, so the loop is given a number of
    iterations; [rcopy] gives it one more than the file system has
    entries, which the loop never uses up ([for_candidates_fuel]). *)
Fixpoint for_candidates (fuel : nat) (g : generator) (src dst : Path)
    (move quiet dryrun : bool) (count : Z) : M Z :=
  match fuel with
  | O => λ w, (OutOfFuel, w)
  | S fuel' =>
      match next g with
      | (None, _) => ret count
      | (Some dst_filename, g') =>
          copied <- copyfile src (joinpath dst dst_filename)
                      move quiet dryrun ;;
          if copied then ret (count + 1)
          else for_candidates fuel' g' src dst move quiet dryrun count
      end
  end.

Definition enough_fuel (w : world) : nat := S (size (fs w)).

(** The body of the loop over the matching file names of one directory. *)
Definition transfer (root : Path) (filename : string) (dst : Path)
    (move quiet dryrun : bool) (count : Z) : M Z := λ w,
  for_candidates (enough_fuel w) (filenames_with_index filename None)
    (joinpath root filename) dst move quiet dryrun count w.

Fixpoint for_filenames (root : Path) (filenames : list string) (dst : Path)
    (move quiet dryrun : bool) (count : Z) : M Z :=
  match filenames with
  | [] => ret count
  | filename :: rest =>
      count' <- transfer root filename dst move quiet dryrun count ;;
      for_filenames root rest dst move quiet dryrun count'
  end.

(** ** [Path.walk(top_down=False)]

    The walk is a generator: it lists a directory when it reaches it and
    yields it after the directories below it.  Its loop is embedded with
    its body, [body root filenames count], which runs at every [yield] in
    the file system as it is by then. *)

(** [p] is the entry [name] of directory [d]. *)
Definition child_name (d p : Path) : option string :=
  if bool_decide (p ≠ [] ∧ parent p = d) then Some (basename p) else None.

(** The entries of directory [d]. *)
Definition listdir (m : gmap Path node) (d : Path) : list (string * node) :=
  omap (λ '(p, n), (λ name, (name, n)) <$> child_name d p) (map_to_list m).

Definition children (m : gmap Path node) (d : Path) : gmap string node :=
  list_to_map (listdir m d).

(** The order in which [os.scandir] lists the entries of a directory: any
    order, here a function of the entries. *)
Record Scandir : Type := MkScandir {
  scandir_order :> gmap string node → list (string * node);
  scandir_perm : ∀ d, scandir_order d ≡ₚ map_to_list d
}.

Definition is_dir (n : node) : bool :=
  match n with
  | Directory => true
  | File _ => false
  end.

(** One step of the walk at [top]: the names of its directories and of
    its other entries, or [None] when [top] cannot be listed, which the
    walk ignores. *)
Definition scan (order : Scandir) (m : gmap Path node) (top : Path)
  : option (list string * list string) :=
  match m !! top with
  | Some Directory =>
      let entries := order (children m top) in
      Some ((filter (λ e, is_dir e.2) entries).*1,
            (filter (λ e, ¬ is_dir e.2) entries).*1)
  | _ => None
  end.

(** [for a in l: count = f(a, count)] *)
Fixpoint for_each {A} (f : A → Z → M Z) (l : list A) (count : Z) : M Z :=
  match l with
  | [] => ret count
  | a :: l' =>
      count' <- f a count ;;
      for_each f l' count'
  end.

(** [for root, _, filenames in top.walk(top_down=False): body].  The
    recursion is on [fuel], the number of levels below [top] and one
    more. *)
Fixpoint walk_bottom_up (order : Scandir) (fuel : nat)
    (body : Path → list string → Z → M Z) (top : Path) (count : Z) : M Z :=
  match fuel with
  | O => λ w, (OutOfFuel, w)
  | S fuel' => λ w,
      match scan order (fs w) top with
      | None => (Return count, w)
      | Some (dirnames, filenames) =>
          (count' <- for_each (λ d, walk_bottom_up order fuel' body
                                      (joinpath top d)) dirnames count ;;
           body top filenames count') w
      end
  end.

(** No directory lies deeper than the longest path of the file system. *)
Definition walk_fuel (m : gmap Path node) : nat :=
  S (S (max_list (length <$> (map_to_list m).*1))).

(** ** [rcopy] *)

Section Collector.

(** [fnmatch.fnmatch(name, pattern)] *)
Variable fnmatch : string → string → bool.

Variable order : Scandir.

(** [fnmatch.filter(filenames, pattern)] *)
Definition fnmatch_filter (filenames : list string) (pattern : string)
  : list string :=
  filter (λ name, fnmatch name pattern) filenames.

(** The body of the loop over the walk. *)
Definition collect (pattern : string) (dst : Path)
    (move quiet dryrun : bool) (root : Path) (filenames : list string)
    (count : Z) : M Z :=
  for_filenames root (fnmatch_filter filenames pattern)
    dst move quiet dryrun count.

Definition rcopy (pattern : string) (src dst : Path)
    (move quiet dryrun : bool) : M Z := λ w,
  walk_bottom_up order (walk_fuel (fs w))
    (collect pattern dst move quiet dryrun) src 0 w.

End Collector.

(** * Specification *)

(** ** The run as a sequence *)

(** The loop over a given sequence of yielded directories. *)
Fixpoint for_walked (body : Path → list string → Z → M Z)
    (walked : list (Path * list string)) (count : Z) : M Z :=
  match walked with
  | [] => ret count
  | (root, filenames) :: rest =>
      count' <- body root filenames count ;;
      for_walked body rest count'
  end.

(** What the walk of [top] yields in a file system that stays [m]. *)
Fixpoint walk_list (order : Scandir) (fuel : nat) (m : gmap Path node)
    (top : Path) : list (Path * list string) :=
  match fuel with
  | O => []
  | S fuel' =>
      match scan order m top with
      | None => []
      | Some (dirnames, filenames) =>
          flat_map (λ d, walk_list order fuel' m (joinpath top d)) dirnames
          ++ [(top, filenames)]
      end
  end.

Definition snapshot (order : Scandir) (m : gmap Path node) (top : Path)
  : list (Path * list string) :=
  walk_list order (walk_fuel m) m top.

(** The files a run over [walked] handles, in order: directory and
    name. *)
Definition matched (fnmatch : string → string → bool) (pattern : string)
    (walked : list (Path * list string)) : list (Path * string) :=
  flat_map (λ '(root, filenames),
              (λ name, (root, name))
                <$> fnmatch_filter fnmatch filenames pattern) walked.

(** The loop over the matched files. *)
Fixpoint for_matched (files : list (Path * string)) (dst : Path)
    (move quiet dryrun : bool) (count : Z) : M Z :=
  match files with
  | [] => ret count
  | (root, filename) :: rest =>
      count' <- transfer root filename dst move quiet dryrun count ;;
      for_matched rest dst move quiet dryrun count'
  end.

(** The source paths of the matched files. *)
Definition sources (files : list (Path * string)) : list Path :=
  (λ rf, joinpath rf.1 rf.2) <$> files.

(** That every directory below [p] is less than [fuel] levels below. *)
Definition deep_enough (m : gmap Path node) (fuel : nat) (p : Path) : Prop :=
  ∀ q, m !! q = Some Directory → p `prefix_of` q →
       (length q < length p + fuel)%nat.
(** The frame of a generator that has yielded [i] values and has not
    stopped. *)
Definition gen_at (name : string) (max_index : option Z) (i : nat)
  : generator :=
  Generator name max_index
    (match i with O => NotStarted | S j => AtYield (Z.of_nat j) end).

(** The index sequence [0, 1, ..., n-1] as Python integers. *)
Definition indices (n : nat) : list Z := Z.of_nat <$> seq 0 n.

(** The split of a file name in the words of the specification: the
    extension is the part after the last ['.'], here with that separator,
    and a name with no ['.'] has none; the stem is what is before. *)
Definition spec_extension (name : string) : string :=
  let i := Str.rfind dot name in
  if 0 <=? i then Str.drop (Z.to_nat i) name else "".

Definition spec_stem (name : string) : string :=
  let i := Str.rfind dot name in
  if 0 <=? i then Str.take (Z.to_nat i) name else name.

(** That a generator with this bound returns instead of yielding a value
    at position [i]. *)
Definition stops_at (max_index : option Z) (i : nat) : bool :=
  match i with
  | O => false
  | S j => at_max_index max_index (Z.of_nat j)
  end.

(** ** What one transfer does *)

(** The line [copyfile] prints. *)
Definition transfer_line (move : bool) (src dst : Path) : string :=
  (if move then "Move " else "Copy ")
  +:+ path_str src +:+ " -> " +:+ path_str dst.

(** The lines a run prints for one file. *)
Definition report (quiet move : bool) (src dst : Path) : list string :=
  if quiet then [] else [transfer_line move src dst].

(** [copyfile] past its test of the destination. *)
Definition perform (src dst : Path) (move quiet dryrun : bool) : M unit :=
  when (negb quiet) (print (transfer_line move src dst)) ;;;
  when (negb dryrun)
    (if move then shutil_move src dst else shutil_copyfile src dst).

(** The last iteration of the candidate loop: the transfer, [count += 1]
    and [break]. *)
Definition place (src dst : Path) (move quiet dryrun : bool) (count : Z)
  : M Z :=
  perform src dst move quiet dryrun ;;; ret (count + 1).

(** The least index from [i] on whose candidate does not exist in [dst],
    looking at [fuel] candidates at most. *)
Fixpoint first_free_from (fuel i : nat) (m : gmap Path node) (dst : Path)
    (name : string) : nat :=
  match fuel with
  | O => i
  | S fuel' =>
      if bool_decide (is_Some (m !! joinpath dst (candidate name (Z.of_nat i))))
      then first_free_from fuel' (S i) m dst name
      else i
  end.

Definition first_free (m : gmap Path node) (dst : Path) (name : string)
  : nat :=
  first_free_from (size m) 0 m dst name.

(** The destination path a file of this name gets in [dst]. *)
Definition free_path (m : gmap Path node) (dst : Path) (name : string)
  : Path :=
  joinpath dst (candidate name (Z.of_nat (first_free m dst name))).

(** What the library call of a transfer to a path that does not exist
    does to the file system, for a source that is not a directory to be
    moved (see [shutil_move]): it fails when the source is not a regular
    file or the directory of the destination is missing, and else places
    the bytes of the source at the destination, and removes the source
    when it moves. *)
Definition commit (move : bool) (src dst : Path) (m : gmap Path node)
  : OSError + gmap Path node :=
  match m !! src with
  | None => inl (FileNotFoundError src)
  | Some Directory => inl (IsADirectoryError src)
  | Some (File content) =>
      match m !! parent dst with
      | Some Directory =>
          inr (<[dst := File content]> (if move then delete src m else m))
      | Some (File _) => inl (NotADirectoryError dst)
      | None => inl (FileNotFoundError dst)
      end
  end.

(** That [p] is a regular file. *)
Definition is_file (m : gmap Path node) (p : Path) : bool :=
  match m !! p with
  | Some (File _) => true
  | _ => false
  end.

(** The lines of a dry run over [files]: the file system stays [m]. *)
Definition dry_report (quiet move : bool) (m : gmap Path node) (dst : Path)
    (files : list (Path * string)) : list string :=
  flat_map (λ rf, report quiet move (joinpath rf.1 rf.2)
                    (free_path m dst rf.2)) files.


Global Instance OSError_eq_dec : EqDecision OSError.
Proof. solve_decision. Defined.

Global Instance outcome_eq_dec {A} `{EqDecision A} : EqDecision (outcome A).
Proof. solve_decision. Defined.

(** * Instances *)

(** ** Shell patterns without bracket expressions: [*] matches any run of
    characters, [?] one character, any other character itself. *)
Fixpoint glob (pat : string) (name : string) : bool :=
  match pat with
  | EmptyString => bool_decide (name = "")
  | String c pat' =>
      if bool_decide (c = "*"%char) then
        (fix star (name : string) : bool :=
           glob pat' name ||
           match name with
           | EmptyString => false
           | String _ name' => star name'
           end) name
      else
        match name with
        | EmptyString => false
        | String a name' =>
            (bool_decide (c = "?"%char) || bool_decide (a = c))
            && glob pat' name'
        end
  end.

Definition fnmatchcase (name pat : string) : bool := glob pat name.

(** ** Listing orders *)

(** The position of [name] in [ranking], its length when absent. *)
Fixpoint rank (ranking : list string) (name : string) : nat :=
  match ranking with
  | [] => O
  | r :: ranking' =>
      if bool_decide (r = name) then O else S (rank ranking' name)
  end.

Definition by_rank (ranking : list string) (e1 e2 : string * node) : Prop :=
  (rank ranking e1.1 ≤ rank ranking e2.1)%nat.

Global Instance by_rank_dec (ranking : list string) :
  RelDecision (by_rank ranking).
Proof. intros e1 e2. unfold by_rank. apply _. Defined.

(** The entries sorted by the rank of their names. *)
Definition ranked (ranking : list string) : Scandir :=
  MkScandir (λ d, merge_sort (by_rank ranking) (map_to_list d))
            (λ d, merge_sort_Permutation _ _).

(** ** File systems from directory trees *)

Inductive tree : Type :=
  | Dir (files : list (string * string)) (subdirs : list (string * tree)).

(** The file system [m] with the tree [t] at [top]. *)
Fixpoint mount (top : Path) (t : tree) (m : gmap Path node)
  : gmap Path node :=
  match t with
  | Dir files subdirs =>
      foldr (λ entry acc, mount (joinpath top (fst entry)) (snd entry) acc)
        (foldr (λ entry acc, <[joinpath top (fst entry) := File (snd entry)]> acc)
           (<[top := Directory]> m) files)
        subdirs
  end.

(** ** The scenario of the module's documentation

<<
    /src/1/a.txt   /src/2/b.txt   /src/3/a.txt   /src/4/1/c.txt
>>
    collected into the empty directory [/dest]. *)

Definition scenario_tree : tree :=
  Dir [] [("1", Dir [("a.txt", "one")] []);
          ("2", Dir [("b.txt", "two")] []);
          ("3", Dir [("a.txt", "three")] []);
          ("4", Dir [] [("1", Dir [("c.txt", "four")] [])])].

Definition scenario_world : world :=
  World (mount ["src"] scenario_tree (<[["dest"] := Directory]> ∅)) [].

(** A directory collected into itself. *)
Definition in_place_world : world :=
  World (mount ["d"] (Dir [("a(1).txt", "X"); ("a.txt", "Y")] []) ∅) [].

(** A destination inside the source tree: [/s/1/a.txt], collected into the
    empty directory [/s/out]. *)
Definition nested_world : world :=
  World (mount ["s"] (Dir [] [("1", Dir [("a.txt", "A")] []);
                              ("out", Dir [] [])]) ∅) [].

(** ** Frames *)

(** [x] is an entry of [top] or lies below one. *)
Definition inside (top x : Path) : Prop :=
  ∃ d, joinpath top d `prefix_of` x.

(** [x] is an entry of [d]. *)
Definition entry_of (d x : Path) : Prop := ∃ name, x = joinpath d name.

(** A loop body that ends and that changes no path but the entries of its
    directory and the paths in [written]. *)
Definition body_framed (body : Path → list string → Z → M Z)
    (written : Path → Prop) (root : Path) (filenames : list string) : Prop :=
  ∀ count w,
    (body root filenames count w).1 ≠ OutOfFuel
    ∧ ∀ x, ¬ written x → ¬ entry_of root x →
           fs (body root filenames count w).2 !! x = fs w !! x.

(** The directories of [w] are directories of [m]. *)
Definition dirs_within (m : gmap Path node) (w : world) : Prop :=
  ∀ x, fs w !! x = Some Directory → m !! x = Some Directory.

(** ** [main]

    The command line as [argparse] has parsed it. *)
Record Namespace : Type := MkNamespace {
  args_move : bool;
  args_dryrun : bool;
  args_quiet : bool;
  args_pattern : string;
  args_src : Path;
  args_dest : Path
}.

(** [main] past [parser.parse_args()]: the count of [rcopy] is dropped. *)
Definition main (fnmatch : string → string → bool) (order : Scandir)
    (args : Namespace) : M Z :=
  rcopy fnmatch order (args_pattern args) (args_src args) (args_dest args)
    (args_move args) (args_quiet args) (args_dryrun args) ;;;
  ret 0.

(** [(index)], the text [filenames_with_index] inserts. *)
Definition index_text (index : Z) : string :=
  if bool_decide (index ≠ 0) then "(" +:+ pretty index +:+ ")" else "".

(** [top], [top/d1], [top/d1/d2], ... down to [top/d1/.../dn] are
    directories of [m]: the way of the walk of [top] to the directory
    [top ++ below]. *)
Fixpoint dirs_down (m : gmap Path node) (top : Path) (below : list string)
  : bool :=
  bool_decide (m !! top = Some Directory)
  && match below with
     | [] => true
     | d :: below' => dirs_down m (joinpath top d) below'
     end.

(** The scenario with a destination that holds [a.txt] and [a(1).txt]. *)
Definition populated_world : world :=
  World (mount ["src"] scenario_tree
           (mount ["dest"] (Dir [("a.txt", "old"); ("a(1).txt", "older")] [])
              ∅)) [].

(** ** Regular files

    That the file names a walk yields are those of regular files when
    the loop body gets them: [walked] is what the loop over the walk
    goes through, from the state [w] on. *)
Fixpoint listed_when_reached (body : Path → list string → Z → M Z)
    (walked : list (Path * list string)) (count : Z) (w : world) : Prop :=
  match walked with
  | [] => True
  | (root, filenames) :: rest =>
      (NoDup filenames
       ∧ Forall (λ f, is_file (fs w) (joinpath root f)) filenames)
      ∧ match body root filenames count w with
        | (Return count', w') => listed_when_reached body rest count' w'
        | _ => True
        end
  end.

(** That every file of a run over [files] is a regular file when its
    turn comes. *)
Fixpoint regular_when_handled (files : list (Path * string)) (dst : Path)
    (move quiet dryrun : bool) (count : Z) (w : world) : Prop :=
  match files with
  | [] => True
  | (root, filename) :: rest =>
      is_file (fs w) (joinpath root filename)
      ∧ match transfer root filename dst move quiet dryrun count w with
        | (Return count', w') =>
            regular_when_handled rest dst move quiet dryrun count' w'
        | _ => True
        end
  end.

(** * Properties *)

(** ** Strings *)

Module StrFacts.

Lemma app_cons (a : ascii) (s t : string) :
  String a s +:+ t = String a (s +:+ t).
Proof. reflexivity. Qed.

Lemma app_nil_r (s : string) : s +:+ "" = s.
Proof. induction s as [|a s IH]; [done|]. by rewrite app_cons, IH. Qed.

Lemma app_assoc (s t u : string) : s +:+ (t +:+ u) = (s +:+ t) +:+ u.
Proof. induction s as [|a s IH]; [done|]. by rewrite !app_cons, IH. Qed.

Lemma length_app (s t : string) :
  String.length (s +:+ t) = (String.length s + String.length t)%nat.
Proof. induction s as [|a s IH]; [done|]. rewrite app_cons. cbn. by rewrite IH. Qed.

(** Cancellation on the right. *)
Lemma app_inj_r (s1 s2 t : string) : s1 +:+ t = s2 +:+ t → s1 = s2.
Proof.
  revert s2. induction s1 as [|a s1 IH]; intros [|b s2] H.
  - done.
  - apply (f_equal String.length) in H. rewrite !length_app in H. cbn in H. lia.
  - apply (f_equal String.length) in H. rewrite !length_app in H. cbn in H. lia.
  - rewrite !app_cons in H. injection H as -> H. f_equal. by apply IH.
Qed.

Lemma take_drop (n : nat) (s : string) : Str.take n s +:+ Str.drop n s = s.
Proof.
  revert s. induction n as [|n IH]; intros [|a s]; try done.
  cbn. rewrite app_cons. by rewrite IH.
Qed.

Lemma rfind_range (c : ascii) (s : string) : -1 ≤ Str.rfind c s < Str.len s.
Proof.
  unfold Str.len. induction s as [|a s IH]; cbn [Str.rfind String.length]; [lia|].
  destruct (Z.leb_spec 0 (Str.rfind c s)); [lia|].
  case_bool_decide; lia.
Qed.

Lemma rfind_mem (c : ascii) (s : string) :
  Str.mem c s = false ↔ Str.rfind c s = -1.
Proof.
  induction s as [|a s IH]; cbn [Str.rfind Str.mem]; [done|].
  pose proof (rfind_range c s).
  destruct (Z.leb_spec 0 (Str.rfind c s)).
  - split; [|lia]. intros [_ H']%orb_false_iff. apply IH in H'. lia.
  - case_bool_decide; cbn; [split; [done|lia]|]. rewrite IH. lia.
Qed.

(** What is at and after the last occurrence of [c]. *)
Lemma drop_rfind (c : ascii) (s : string) :
  0 ≤ Str.rfind c s →
  ∃ t, Str.drop (Z.to_nat (Str.rfind c s)) s = String c t ∧ Str.mem c t = false.
Proof.
  induction s as [|a s IH]; cbn [Str.rfind]; [lia|].
  destruct (Z.leb_spec 0 (Str.rfind c s)) as [Hr|Hr].
  - intros _. destruct (IH Hr) as (t & Ht & Hm). exists t. split; [|done].
    replace (Z.to_nat (Str.rfind c s + 1)) with (S (Z.to_nat (Str.rfind c s))) by lia.
    done.
  - case_bool_decide as Hac; [|lia]. intros _. subst a. exists s. split; [done|].
    apply rfind_mem. pose proof (rfind_range c s). lia.
Qed.

End StrFacts.

(** ** [stem] and [suffix] *)

Lemma stem_suffix (name : string) : stem name +:+ suffix name = name.
Proof.
  unfold stem, suffix. destruct (has_suffix name).
  - apply StrFacts.take_drop.
  - apply StrFacts.app_nil_r.
Qed.

Lemma suffix_no_dot (name : string) :
  Str.mem dot name = false → suffix name = "" ∧ stem name = name.
Proof.
  intros H%StrFacts.rfind_mem. unfold suffix, stem, has_suffix. rewrite H. done.
Qed.

(** A suffix starts at the last dot of the name, which is neither its first
    nor its last character. *)
Lemma suffix_shape (name : string) :
  suffix name ≠ "" →
  ∃ ext, suffix name = String dot ext ∧ ext ≠ "" ∧ Str.mem dot ext = false
         ∧ stem name ≠ "".
Proof.
  unfold suffix, stem, has_suffix.
  destruct (Z.ltb_spec 0 (Str.rfind dot name)) as [H0|H0]; cbn; [|done].
  destruct (Z.ltb_spec (Str.rfind dot name) (Str.len name - 1)) as [H1|H1]; cbn; [|done].
  intros _. destruct (StrFacts.drop_rfind dot name) as (ext & He & Hm); [lia|].
  exists ext. split_and!; [done| |done|].
  - intros ->. pose proof (StrFacts.take_drop (Z.to_nat (Str.rfind dot name)) name) as Htd.
    rewrite He in Htd. apply (f_equal String.length) in Htd.
    rewrite StrFacts.length_app in Htd. cbn in Htd.
    assert (String.length (Str.take (Z.to_nat (Str.rfind dot name)) name)
            ≤ Z.to_nat (Str.rfind dot name))%nat.
    { generalize (Z.to_nat (Str.rfind dot name)). clear. intros n. revert name.
      induction n as [|n IH]; intros [|a s]; cbn; try lia. specialize (IH s). lia. }
    unfold Str.len in H1. lia.
  - destruct (Z.to_nat (Str.rfind dot name)) eqn:E; [lia|].
    destruct name; [done|]. done.
Qed.

(** ** The name sequencer *)

Lemma candidate_0 (name : string) : candidate name 0 = name.
Proof.
  unfold candidate. rewrite bool_decide_false by lia.
  change ("" +:+ suffix name) with (suffix name). apply stem_suffix.
Qed.

Lemma candidate_pos (name : string) (index : Z) :
  index ≠ 0 →
  candidate name index
  = stem name +:+ ("(" +:+ pretty index +:+ ")") +:+ suffix name.
Proof. intros H. unfold candidate. by rewrite bool_decide_true. Qed.

Lemma candidate_inj (name : string) (i j : Z) :
  candidate name i = candidate name j → i = j.
Proof.
  assert (Hlen : ∀ k, k ≠ 0 →
            (String.length (candidate name k) > String.length name)%nat).
  { intros k Hk. rewrite candidate_pos by done.
    pose proof (f_equal String.length (stem_suffix name)) as E.
    rewrite !StrFacts.length_app in *. cbn. lia. }
  destruct (decide (i = 0)) as [->|Hi], (decide (j = 0)) as [->|Hj]; [done| | |].
  - rewrite candidate_0. intros H. specialize (Hlen j Hj). rewrite <- H in Hlen. lia.
  - rewrite candidate_0. intros H. specialize (Hlen i Hi). rewrite H in Hlen. lia.
  - rewrite !candidate_pos by done. intros H.
    apply String.app_inj in H. apply StrFacts.app_inj_r in H.
    apply (String.app_inj "(") in H.
    apply StrFacts.app_inj_r in H. by apply (inj pretty).
Qed.

Lemma next_gen_at (name : string) (mx : option Z) (i : nat) :
  stops_at mx i = false →
  next (gen_at name mx i)
  = (Some (candidate name (Z.of_nat i)), gen_at name mx (S i)).
Proof.
  intros H. destruct i as [|i]; [done|]. cbn [gen_at next]. cbn in H.
  rewrite H. by replace (Z.of_nat i + 1) with (Z.of_nat (S i)) by lia.
Qed.

Lemma next_gen_at_max (name : string) (m : nat) :
  fst (next (gen_at name (Some (Z.of_nat m)) (S m))) = None.
Proof. cbn [gen_at next at_max_index]. by rewrite Z.eqb_refl. Qed.

(** The values a generator yields from position [i] on, while no index is
    the bound. *)
Lemma islice_gen_at (name : string) (mx : option Z) (n i : nat) :
  (∀ j, (i ≤ j < i + n)%nat → stops_at mx j = false) →
  islice n (gen_at name mx i)
  = (λ k, candidate name (Z.of_nat k)) <$> seq i n.
Proof.
  revert i. induction n as [|n IH]; intros i H; [done|].
  cbn [islice]. rewrite next_gen_at by (apply H; lia).
  rewrite IH by (intros j Hj; apply H; lia). done.
Qed.

Lemma stops_within_gen_at (name : string) (mx : option Z) (n i : nat) :
  (∀ j, (i ≤ j < i + n)%nat → stops_at mx j = false) →
  stops_within n (gen_at name mx i) = false.
Proof.
  revert i. induction n as [|n IH]; intros i H; [done|].
  cbn [stops_within]. rewrite next_gen_at by (apply H; lia).
  apply IH. intros j Hj; apply H; lia.
Qed.

(** A bounded generator: what it yields from position [i] on, and when it
    stops. *)
Lemma islice_bounded (name : string) (m : nat) (n i : nat) :
  (i ≤ S m)%nat →
  islice n (gen_at name (Some (Z.of_nat m)) i)
  = (λ k, candidate name (Z.of_nat k)) <$> seq i (n `min` (S m - i)).
Proof.
  revert i. induction n as [|n IH]; intros i Hi; [done|].
  cbn [islice]. destruct (decide (i = S m)) as [->|Hne].
  - destruct (next (gen_at name (Some (Z.of_nat m)) (S m))) as [o g'] eqn:E.
    pose proof (next_gen_at_max name m) as Hn.
    rewrite E in Hn. cbn in Hn. subst o.
    by replace (S n `min` (S m - S m))%nat with 0%nat by lia.
  - rewrite next_gen_at by (destruct i; cbn; [done|apply Z.eqb_neq; lia]).
    rewrite IH by lia.
    replace (S n `min` (S m - i))%nat with (S (n `min` (S m - S i)))%nat by lia.
    done.
Qed.

Lemma stops_within_bounded (name : string) (m : nat) (n i : nat) :
  (i ≤ S m)%nat →
  stops_within n (gen_at name (Some (Z.of_nat m)) i)
  = bool_decide (S m - i < n)%nat.
Proof.
  revert i. induction n as [|n IH]; intros i Hi.
  - cbn. by rewrite bool_decide_false by lia.
  - cbn [stops_within]. destruct (decide (i = S m)) as [->|Hne].
    + destruct (next (gen_at name (Some (Z.of_nat m)) (S m))) as [o g'] eqn:E.
      pose proof (next_gen_at_max name m) as Hn.
      rewrite E in Hn. cbn in Hn. subst o. by rewrite bool_decide_true by lia.
    + rewrite next_gen_at by (destruct i; cbn; [done|apply Z.eqb_neq; lia]).
      rewrite IH by lia. apply bool_decide_ext. lia.
Qed.

Lemma NoDup_candidates (name : string) (i n : nat) :
  NoDup ((λ k, candidate name (Z.of_nat k)) <$> seq i n).
Proof.
  apply NoDup_fmap_2; [|apply NoDup_seq].
  intros j k H%candidate_inj. lia.
Qed.

(** Every generator yields a prefix of the candidates of its name. *)
Lemma islice_prefix (name : string) (mx : option Z) (n i : nat) :
  islice n (gen_at name mx i)
  `prefix_of` (λ k, candidate name (Z.of_nat k)) <$> seq i n.
Proof.
  revert i. induction n as [|n IH]; intros i; [done|].
  cbn [islice]. destruct (stops_at mx i) eqn:E.
  - destruct i as [|i]; [done|]. cbn [gen_at next]. cbn in E.
    rewrite E. apply prefix_nil.
  - rewrite next_gen_at by done. cbn. apply prefix_cons, IH.
Qed.

Lemma nth_candidate_unbounded (name : string) (k : nat) :
  nth_candidate (filenames_with_index name None) k
  = Some (candidate name (Z.of_nat k)).
Proof.
  unfold nth_candidate. change (filenames_with_index name None) with (gen_at name None 0).
  rewrite islice_gen_at by (by intros [|?] _).
  rewrite list_lookup_fmap, lookup_seq_lt by lia. done.
Qed.

(** What the path library makes of a name whose last ['.'] is neither
    its first nor its last character. *)
Lemma rfind_app_last (c : ascii) (s t : string) :
  Str.mem c t = false → Str.rfind c (s +:+ String c t) = Str.len s.
Proof.
  intros Hm. apply StrFacts.rfind_mem in Hm. induction s as [|a s IH].
  - change ("" +:+ String c t) with (String c t). cbn [Str.rfind].
    rewrite Hm. cbn. by rewrite bool_decide_true.
  - rewrite StrFacts.app_cons. cbn [Str.rfind]. rewrite IH.
    unfold Str.len. cbn [String.length].
    destruct (Z.leb_spec 0 (Z.of_nat (String.length s))); lia.
Qed.

Lemma drop_length_app (s t : string) :
  Str.drop (String.length s) (s +:+ t) = t.
Proof. induction s as [|a s IH]; [done|]. by rewrite StrFacts.app_cons. Qed.

Lemma take_length_app (s t : string) :
  Str.take (String.length s) (s +:+ t) = s.
Proof.
  induction s as [|a s IH]; [by destruct t|].
  rewrite StrFacts.app_cons. cbn. by rewrite IH.
Qed.

Lemma mem_app_here (c : ascii) (s t : string) :
  Str.mem c (s +:+ String c t) = true.
Proof.
  induction s as [|a s IH].
  - change ("" +:+ String c t) with (String c t). cbn [Str.mem].
    by rewrite bool_decide_true.
  - rewrite StrFacts.app_cons. cbn [Str.mem]. rewrite IH. apply orb_true_r.
Qed.

Lemma split_has_suffix (s ext : string) :
  s ≠ "" → ext ≠ "" → Str.mem dot ext = false →
  has_suffix (s +:+ "." +:+ ext) = true
  ∧ stem (s +:+ "." +:+ ext) = s
  ∧ suffix (s +:+ "." +:+ ext) = "." +:+ ext.
Proof.
  intros Hs He Hm. change ("." +:+ ext) with (String dot ext).
  pose proof (rfind_app_last dot s ext Hm) as Hr.
  assert (Hhas : has_suffix (s +:+ String dot ext) = true).
  { unfold has_suffix. rewrite Hr. unfold Str.len.
    rewrite StrFacts.length_app. cbn [String.length].
    destruct s; [done|]. destruct ext; [done|]. cbn [String.length].
    apply andb_true_iff. split; apply Z.ltb_lt; lia. }
  unfold stem, suffix. rewrite Hhas, Hr. unfold Str.len. rewrite Nat2Z.id.
  by rewrite take_length_app, drop_length_app.
Qed.

(** C1, as amended.  The candidate at index 0 is the name unchanged.  At
    every index [k >= 1]: when the last ['.'] of the name is neither its
    first nor its last character, that is when the name is [s.ext] with
    [s] and [ext] not empty and no ['.'] in [ext], the candidate is
    [s(k).ext], the index inserted before the separator; and when the
    name cannot be split so (it has no ['.'], or its last ['.'] is its
    first or its last character), the candidate is the name followed by
    [(k)]. *)
Theorem sequencer_candidates (f : string) (k : nat) :
  let g := filenames_with_index f None in
  let index := "(" +:+ pretty (Z.of_nat (S k)) +:+ ")" in
  nth_candidate g 0 = Some f
  ∧ (∀ s ext,
       f = s +:+ "." +:+ ext → s ≠ "" → ext ≠ "" → Str.mem dot ext = false →
       nth_candidate g (S k) = Some (s +:+ index +:+ "." +:+ ext))
  ∧ ((∀ s ext,
        f = s +:+ "." +:+ ext →
        s = "" ∨ ext = "" ∨ Str.mem dot ext = true) →
     nth_candidate g (S k) = Some (f +:+ index)).
Proof.
  intros g index. unfold g. rewrite !nth_candidate_unbounded.
  rewrite candidate_0, candidate_pos by lia. fold index.
  split_and!; [done| |].
  - intros s ext -> Hs He Hm.
    destruct (split_has_suffix s ext Hs He Hm) as (_ & -> & ->). done.
  - intros Hno. destruct (has_suffix f) eqn:E.
    + destruct (suffix_shape f) as (ext & Hs & Hne & Hm & Hst).
      { unfold suffix. rewrite E. unfold has_suffix in E.
        apply andb_prop in E as [E1%Z.ltb_lt _].
        destruct (StrFacts.drop_rfind dot f) as (t & -> & _); [lia|done]. }
      destruct (Hno (stem f) ext) as [?|[?|Hd]]; [|done|done|].
      * rewrite <- (stem_suffix f) at 1. by rewrite Hs.
      * by rewrite Hm in Hd.
    + unfold stem, suffix. rewrite E. by rewrite StrFacts.app_nil_r.
Qed.

(** [abc.txt] sequences as [abc(1).txt], [abc.tar.gz] as [abc.tar(2).gz],
    and [abc], which cannot be split, as [abc(1)]. *)
Lemma sequencer_candidates_witness :
  nth_candidate (filenames_with_index "abc.txt" None) 1 = Some "abc(1).txt"
  ∧ nth_candidate (filenames_with_index "abc.tar.gz" None) 2
    = Some "abc.tar(2).gz"
  ∧ nth_candidate (filenames_with_index "abc" None) 1 = Some "abc(1)".
Proof.
  split_and!.
  - apply (proj1 (proj2 (sequencer_candidates "abc.txt" 0)) "abc" "txt");
      [reflexivity|discriminate|discriminate|reflexivity].
  - apply (proj1 (proj2 (sequencer_candidates "abc.tar.gz" 1)) "abc.tar" "gz");
      [reflexivity|discriminate|discriminate|reflexivity].
  - apply (proj2 (proj2 (sequencer_candidates "abc" 0))).
    intros s ext H. apply (f_equal (Str.mem dot)) in H.
    rewrite (mem_app_here dot s ext : Str.mem dot (s +:+ "." +:+ ext) = true)
      in H.
    discriminate H.
Defined.

(** C1 as it is stated fails on a name that starts with its only ['.']:
    the part after the last ['.'] of [.bashrc] is not empty, and the
    candidate at index 1 is [.bashrc(1)], not [(1).bashrc]. *)
Lemma sequencer_candidates_dotfile :
  spec_stem ".bashrc" = ""
  ∧ spec_extension ".bashrc" = ".bashrc"
  ∧ nth_candidate (filenames_with_index ".bashrc" None) 1 = Some ".bashrc(1)"
  ∧ nth_candidate (filenames_with_index ".bashrc" None) 1
    ≠ Some (spec_stem ".bashrc" +:+ "(" +:+ pretty 1 +:+ ")"
            +:+ spec_extension ".bashrc").
Proof. split_and!; [reflexivity..|]. vm_compute. discriminate. Qed.

(** C7.  Without [max_index] the sequence does not end: it yields [n]
    values for every [n].  With the bound [m] it stops after the value at
    index [m]: it yields [m + 1] values, of which that one is the last. *)
Theorem sequencer_length (name : string) (m n : nat) :
  let unbounded := filenames_with_index name None in
  let bounded := filenames_with_index name (Some (Z.of_nat m)) in
  length (islice n unbounded) = n
  ∧ stops_within n unbounded = false
  ∧ length (islice n bounded) = (n `min` S m)%nat
  ∧ stops_within n bounded = bool_decide (S m < n)%nat
  ∧ nth_candidate bounded m = Some (candidate name (Z.of_nat m))
  ∧ nth_candidate bounded (S m) = None.
Proof.
  intros unbounded bounded.
  change unbounded with (gen_at name None 0).
  change bounded with (gen_at name (Some (Z.of_nat m)) 0).
  unfold nth_candidate.
  rewrite islice_gen_at, stops_within_gen_at by (by intros [|?] _).
  rewrite !islice_bounded, stops_within_bounded by lia.
  rewrite !length_fmap, !length_seq. split_and!; [done|done|lia| | |].
  - apply bool_decide_ext. lia.
  - rewrite list_lookup_fmap, lookup_seq_lt by lia. done.
  - apply lookup_ge_None_2. rewrite length_fmap, length_seq. lia.
Qed.

(** A bound below 0 is never reached. *)
Lemma sequencer_negative_bound (name : string) (m : Z) (n : nat) :
  m < 0 → length (islice n (filenames_with_index name (Some m))) = n.
Proof.
  intros Hm. change (filenames_with_index name (Some m)) with (gen_at name (Some m) 0).
  rewrite islice_gen_at, length_fmap, length_seq; [done|].
  intros [|j] Hj; cbn; [done|]. apply Z.eqb_neq. lia.
Qed.

(** C8.  The values a generator yields are the candidates of its name in
    the order of their indices, from 0 on, whatever the invocation and its
    bound; and the candidates of distinct indices differ. *)
Theorem sequencer_deterministic (name : string) (max_index : option Z)
    (n : nat) :
  let g := filenames_with_index name max_index in
  islice n g `prefix_of` (candidate name <$> indices n)
  ∧ NoDup (candidate name <$> indices n)
  ∧ NoDup (islice n g).
Proof.
  intros g. change g with (gen_at name max_index 0). unfold indices.
  rewrite <- list_fmap_compose.
  pose proof (islice_prefix name max_index n 0) as Hp.
  pose proof (NoDup_candidates name 0 n) as Hn.
  split_and!; [done|done|].
  destruct Hp as [l Hl]. unfold compose in *. rewrite Hl in Hn.
  by apply NoDup_app in Hn as [? _].
Qed.

(** ** Paths *)

Lemma parent_joinpath (p : Path) (name : string) : parent (joinpath p name) = p.
Proof. apply removelast_last. Qed.

Lemma joinpath_inj (p : Path) (a b : string) :
  joinpath p a = joinpath p b → a = b.
Proof. unfold joinpath. intros H%app_inv_head. congruence. Qed.

(** ** The monad *)

Lemma bind_Return {A B} (m : M A) (k : A → M B) (w w' : world) (a : A) :
  m w = (Return a, w') → bind m k w = k a w'.
Proof. unfold bind. by intros ->. Qed.

Lemma bind_Raise {A B} (m : M A) (k : A → M B) (w w' : world) (e : OSError) :
  m w = (Raise e, w') → bind m k w = (Raise e, w').
Proof. unfold bind. by intros ->. Qed.

Lemma bind_assoc {A B C} (m : M A) (k : A → M B) (h : B → M C) (w : world) :
  bind (bind m k) h w = bind m (λ a, bind (k a) h) w.
Proof. unfold bind. destruct (m w) as [[a|e|] w']; done. Qed.

Lemma bind_ext {A B} (m : M A) (k k' : A → M B) (w : world) :
  (∀ a w', k a w' = k' a w') → bind m k w = bind m k' w.
Proof. intros H. unfold bind. destruct (m w) as [[a|e|] w']; auto. Qed.

(** ** [copyfile] *)

Lemma copyfile_exists (src dst : Path) (move quiet dryrun : bool) (w : world) :
  is_Some (fs w !! dst) →
  copyfile src dst move quiet dryrun w = (Return false, w).
Proof.
  intros H. unfold copyfile, bind, path_exists. by rewrite bool_decide_true.
Qed.

Lemma copyfile_free (src dst : Path) (move quiet dryrun : bool) (w : world) :
  fs w !! dst = None →
  copyfile src dst move quiet dryrun w
  = (perform src dst move quiet dryrun ;;; ret true) w.
Proof.
  intros H. unfold copyfile, bind at 1, path_exists.
  rewrite bool_decide_false by (rewrite H; by intros [? ?]).
  unfold perform. by destruct move.
Qed.

(** ** The candidate search *)

(** As many candidates as exist in the destination, as many entries at
    least has the file system. *)
Lemma candidates_exist_size (m : gmap Path node) (dst : Path) (name : string)
    (i : nat) :
  (∀ j, (j < i)%nat → is_Some (m !! joinpath dst (candidate name (Z.of_nat j)))) →
  (i ≤ size m)%nat.
Proof.
  intros H.
  set (l := (λ j, joinpath dst (candidate name (Z.of_nat j))) <$> seq 0 i).
  assert (Hnd : NoDup l).
  { apply NoDup_fmap_2; [|apply NoDup_seq].
    intros j k Hjk%joinpath_inj%candidate_inj. lia. }
  assert (Hsub : list_to_set l ⊆ dom m).
  { intros p [j [-> Hj%elem_of_seq]]%elem_of_list_to_set%list_elem_of_fmap.
    apply elem_of_dom, H. lia. }
  apply subseteq_size in Hsub.
  rewrite size_list_to_set, size_dom in Hsub by done.
  unfold l in Hsub. by rewrite length_fmap, length_seq in Hsub.
Qed.

Lemma first_free_from_spec (fuel i : nat) (m : gmap Path node) (dst : Path)
    (name : string) :
  (∀ j, (j < i)%nat → is_Some (m !! joinpath dst (candidate name (Z.of_nat j)))) →
  (size m ≤ fuel + i)%nat →
  let k := first_free_from fuel i m dst name in
  (i ≤ k ≤ size m)%nat
  ∧ (∀ j, (j < k)%nat → is_Some (m !! joinpath dst (candidate name (Z.of_nat j))))
  ∧ m !! joinpath dst (candidate name (Z.of_nat k)) = None.
Proof.
  revert i. induction fuel as [|fuel IH]; intros i Hi Hsz; cbn [first_free_from].
  - pose proof (candidates_exist_size m dst name i Hi) as Hle.
    split_and!; [lia|lia|done|].
    destruct (m !! joinpath dst (candidate name (Z.of_nat i))) eqn:E; [|done].
    pose proof (candidates_exist_size m dst name (S i)) as Hle'.
    assert (S i ≤ size m)%nat; [|lia]. apply Hle'. intros j Hj.
    destruct (decide (j = i)) as [->|]; [by rewrite E|apply Hi; lia].
  - case_bool_decide as E.
    + destruct (IH (S i)) as (Hk & Hb & Hn); [|lia|].
      * intros j Hj. destruct (decide (j = i)) as [->|]; [done|apply Hi; lia].
      * split_and!; [lia|lia|done|done].
    + pose proof (candidates_exist_size m dst name i Hi) as Hle.
      split_and!; [lia|lia|done|].
      destruct (m !! joinpath dst (candidate name (Z.of_nat i))); [|done].
      by destruct E.
Qed.

Lemma first_free_spec (m : gmap Path node) (dst : Path) (name : string) :
  let k := first_free m dst name in
  (k ≤ size m)%nat
  ∧ (∀ j, (j < k)%nat → is_Some (m !! joinpath dst (candidate name (Z.of_nat j))))
  ∧ m !! joinpath dst (candidate name (Z.of_nat k)) = None.
Proof.
  destruct (first_free_from_spec (size m) 0 m dst name) as ([_ ?] & ? & ?);
    [intros; lia|lia|done].
Qed.

Lemma free_path_free (m : gmap Path node) (dst : Path) (name : string) :
  m !! free_path m dst name = None.
Proof. apply first_free_spec. Qed.

(** The loop passes over the candidates that exist and ends at the first
    one that does not, with the transfer. *)
Lemma for_candidates_search (fuel i : nat) (name : string) (src dst : Path)
    (move quiet dryrun : bool) (count : Z) (w : world) :
  (i ≤ first_free (fs w) dst name)%nat →
  (first_free (fs w) dst name < fuel + i)%nat →
  for_candidates fuel (gen_at name None i) src dst move quiet dryrun count w
  = place src (free_path (fs w) dst name) move quiet dryrun count w.
Proof.
  destruct (first_free_spec (fs w) dst name) as (_ & Hb & Hn).
  revert i. induction fuel as [|fuel IH]; intros i Hi Hf; [lia|].
  cbn [for_candidates]. rewrite next_gen_at by (by destruct i).
  destruct (decide (i = first_free (fs w) dst name)) as [->|Hne].
  - unfold bind at 1. fold (free_path (fs w) dst name).
    rewrite copyfile_free by done. unfold place, bind.
    destruct (perform _ _ _ _ _ w) as [[[]|e|] w']; done.
  - rewrite (bind_Return _ _ w w false) by (apply copyfile_exists, Hb; lia).
    apply IH; lia.
Qed.

(** The bound [rcopy] gives the loop is enough, and so is every larger
    one. *)
Lemma for_candidates_fuel (fuel : nat) (name : string) (src dst : Path)
    (move quiet dryrun : bool) (count : Z) (w : world) :
  (size (fs w) < fuel)%nat →
  for_candidates fuel (filenames_with_index name None) src dst
    move quiet dryrun count w
  = place src (free_path (fs w) dst name) move quiet dryrun count w.
Proof.
  intros Hf. change (filenames_with_index name None) with (gen_at name None 0).
  destruct (first_free_spec (fs w) dst name) as (Hk & _ & _).
  apply for_candidates_search; lia.
Qed.

Lemma transfer_place (root : Path) (filename : string) (dst : Path)
    (move quiet dryrun : bool) (count : Z) (w : world) :
  transfer root filename dst move quiet dryrun count w
  = place (joinpath root filename) (free_path (fs w) dst filename)
      move quiet dryrun count w.
Proof. unfold transfer, enough_fuel. apply for_candidates_fuel. lia. Qed.

(** ** The transfer on a free destination *)

Lemma shutil_copyfile_free (src dst : Path) (w : world) :
  fs w !! dst = None →
  shutil_copyfile src dst w
  = match commit false src dst (fs w) with
    | inl e => (Raise e, w)
    | inr m' => (Return tt, World m' (stdout w))
    end.
Proof.
  intros Hd. unfold shutil_copyfile, commit, check_writable.
  destruct (fs w !! src) as [[c|]|] eqn:Hs; [|done|done].
  rewrite bool_decide_false by congruence. rewrite Hd.
  by destruct (fs w !! parent dst) as [[?|]|].
Qed.

Lemma shutil_move_free (src dst : Path) (w : world) :
  fs w !! dst = None →
  shutil_move src dst w
  = match commit true src dst (fs w) with
    | inl e => (Raise e, w)
    | inr m' => (Return tt, World m' (stdout w))
    end.
Proof.
  intros Hd. unfold shutil_move, commit, check_writable. rewrite Hd.
  destruct (fs w !! src) as [[c|]|] eqn:Hs; [|done|done].
  rewrite Hd. by destruct (fs w !! parent dst) as [[?|]|].
Qed.

Lemma world_eta (w : world) : World (fs w) (stdout w) = w.
Proof. by destruct w. Qed.

Lemma print_when (quiet move : bool) (src dst : Path) (w : world) :
  when (negb quiet) (print (transfer_line move src dst)) w
  = (Return tt, World (fs w) (stdout w ++ report quiet move src dst)).
Proof.
  unfold report. destruct quiet; cbn; [|done].
  unfold ret. by rewrite app_nil_r, world_eta.
Qed.

Lemma place_dryrun (src dst : Path) (move quiet : bool) (count : Z) (w : world) :
  place src dst move quiet true count w
  = (Return (count + 1),
     World (fs w) (stdout w ++ report quiet move src dst)).
Proof.
  unfold place, perform. unfold bind at 1 2. by rewrite print_when.
Qed.

Lemma place_real (src dst : Path) (move quiet : bool) (count : Z) (w : world) :
  fs w !! dst = None →
  place src dst move quiet false count w
  = match commit move src dst (fs w) with
    | inl e =>
        (Raise e, World (fs w) (stdout w ++ report quiet move src dst))
    | inr m' =>
        (Return (count + 1),
         World m' (stdout w ++ report quiet move src dst))
    end.
Proof.
  intros Hd. unfold place, perform. unfold bind at 1 2. rewrite print_when.
  cbn [negb when]. destruct move.
  - rewrite shutil_move_free by done. cbn [fs stdout].
    by destruct (commit true src dst (fs w)).
  - rewrite shutil_copyfile_free by done. cbn [fs stdout].
    by destruct (commit false src dst (fs w)).
Qed.

(** One matched file, in closed form. *)
Lemma transfer_dryrun (root : Path) (filename : string) (dst : Path)
    (move quiet : bool) (count : Z) (w : world) :
  transfer root filename dst move quiet true count w
  = (Return (count + 1),
     World (fs w)
       (stdout w ++ report quiet move (joinpath root filename)
                      (free_path (fs w) dst filename))).
Proof. rewrite transfer_place. apply place_dryrun. Qed.

Lemma transfer_real (root : Path) (filename : string) (dst : Path)
    (move quiet : bool) (count : Z) (w : world) :
  let src := joinpath root filename in
  let dst_path := free_path (fs w) dst filename in
  transfer root filename dst move quiet false count w
  = match commit move src dst_path (fs w) with
    | inl e =>
        (Raise e, World (fs w) (stdout w ++ report quiet move src dst_path))
    | inr m' =>
        (Return (count + 1),
         World m' (stdout w ++ report quiet move src dst_path))
    end.
Proof.
  intros src dst_path. rewrite transfer_place.
  apply place_real, free_path_free.
Qed.

(** ** The run as one loop over the matched files *)

Lemma for_matched_app (l1 l2 : list (Path * string)) (dst : Path)
    (move quiet dryrun : bool) (count : Z) (w : world) :
  for_matched (l1 ++ l2) dst move quiet dryrun count w
  = (count' <- for_matched l1 dst move quiet dryrun count ;;
     for_matched l2 dst move quiet dryrun count') w.
Proof.
  revert count w. induction l1 as [|[root filename] l1 IH]; intros count w.
  - done.
  - cbn [for_matched app]. rewrite bind_assoc. apply bind_ext. intros; apply IH.
Qed.

Lemma for_filenames_matched (root : Path) (filenames : list string)
    (dst : Path) (move quiet dryrun : bool) (count : Z) (w : world) :
  for_filenames root filenames dst move quiet dryrun count w
  = for_matched ((λ name, (root, name)) <$> filenames)
      dst move quiet dryrun count w.
Proof.
  revert count w. induction filenames as [|name rest IH]; intros count w; [done|].
  rewrite fmap_cons. cbn [for_filenames for_matched]. apply bind_ext.
  intros; apply IH.
Qed.

(** ** Runs *)

Lemma for_matched_dryrun (files : list (Path * string)) (dst : Path)
    (move quiet : bool) (count : Z) (w : world) :
  for_matched files dst move quiet true count w
  = (Return (count + Z.of_nat (length files)),
     World (fs w) (stdout w ++ dry_report quiet move (fs w) dst files)).
Proof.
  revert count w. induction files as [|[root filename] rest IH]; intros count w.
  - cbn. unfold ret. by rewrite Z.add_0_r, app_nil_r, world_eta.
  - cbn [for_matched]. erewrite bind_Return by apply transfer_dryrun.
    rewrite IH. cbn [fs stdout dry_report flat_map length].
    rewrite <- app_assoc. do 2 f_equal. lia.
Qed.

(** A failure ends the run where it happens. *)
Lemma for_matched_abort (pre post : list (Path * string)) (root : Path)
    (filename : string) (dst : Path) (move quiet dryrun : bool)
    (count0 count : Z) (w w1 w2 : world) (e : OSError) :
  for_matched pre dst move quiet dryrun count0 w = (Return count, w1) →
  transfer root filename dst move quiet dryrun count w1 = (Raise e, w2) →
  for_matched (pre ++ (root, filename) :: post) dst move quiet dryrun count0 w
  = (Raise e, w2).
Proof.
  intros Hpre Hfail. rewrite for_matched_app.
  erewrite bind_Return by done. cbn [for_matched].
  by erewrite bind_Raise.
Qed.

Lemma commit_lookup (move : bool) (src dst p : Path) (m m' : gmap Path node)
    (n : node) :
  m !! dst = None →
  commit move src dst m = inr m' →
  m !! p = Some n →
  m' !! p = Some n ∨ (move = true ∧ p = src).
Proof.
  intros Hd Hc Hp. unfold commit in Hc.
  destruct (m !! src) as [[c|]|]; [|done..].
  destruct (m !! parent dst) as [[?|]|]; [done| |done].
  injection Hc as <-.
  assert (p ≠ dst) by congruence. rewrite lookup_insert_ne by done.
  destruct move; [|by left].
  destruct (decide (p = src)) as [->|]; [by right|].
  left. by rewrite lookup_delete_ne.
Qed.

(** What exists before a run and is not moved by it is there after it,
    the same. *)
Lemma for_matched_preserves (files : list (Path * string)) (dst : Path)
    (move quiet : bool) (count : Z) (w : world) (p : Path) (n : node) :
  fs w !! p = Some n →
  fs (for_matched files dst move quiet false count w).2 !! p = Some n
  ∨ (move = true ∧ p ∈ sources files).
Proof.
  revert count w. induction files as [|[root filename] rest IH]; intros count w Hp.
  - by left.
  - cbn [for_matched]. unfold bind. rewrite transfer_real.
    destruct (commit _ _ _ _) as [e|m'] eqn:Hc; [by left|].
    destruct (commit_lookup _ _ _ p _ _ n (free_path_free _ _ _) Hc Hp)
      as [Hp'|[-> ->]].
    + destruct (IH (count + 1) (World m' (stdout w ++
        report quiet move (joinpath root filename)
          (free_path (fs w) dst filename))) Hp') as [?|[? ?]];
        [by left|right].
      split; [done|]. unfold sources. rewrite fmap_cons. by apply list_elem_of_further.
    + right. split; [done|]. unfold sources. rewrite fmap_cons. apply list_elem_of_here.
Qed.

(** A run whose destination is a directory and whose sources are regular
    files, each listed once when it moves them, places them all. *)
Lemma for_matched_real (files : list (Path * string)) (dst : Path)
    (move quiet : bool) (count : Z) (w : world) :
  fs w !! dst = Some Directory →
  Forall (λ p, is_file (fs w) p) (sources files) →
  (move = true → NoDup (sources files)) →
  (for_matched files dst move quiet false count w).1
  = Return (count + Z.of_nat (length files)).
Proof.
  revert count w. induction files as [|[root filename] rest IH];
    intros count w Hdst Hsrc Hnd.
  - cbn. f_equal. lia.
  - cbn [for_matched]. unfold bind. rewrite transfer_real.
    unfold sources in Hsrc, Hnd. rewrite fmap_cons in Hsrc, Hnd.
    apply Forall_cons in Hsrc as [Hfile Hrest]. cbn [fst snd] in *.
    pose proof (free_path_free (fs w) dst filename) as Hfree.
    unfold commit. unfold is_file in Hfile.
    destruct (fs w !! joinpath root filename) as [[c|]|] eqn:Hs; [|done..].
    unfold free_path at 1. rewrite parent_joinpath, Hdst.
    fold (free_path (fs w) dst filename).
    rewrite IH; cbn [fs]; [f_equal; cbn [length]; lia| | |].
    + rewrite lookup_insert_ne by congruence.
      destruct move; [|done]. rewrite lookup_delete_ne by congruence. done.
    + apply Forall_forall. intros p Hp.
      assert (Hnp : p ≠ joinpath root filename ∨ move = false).
      { destruct move; [left|by right]. intros ->.
        specialize (Hnd eq_refl). by apply NoDup_cons in Hnd as [? _]. }
      rewrite Forall_forall in Hrest. specialize (Hrest p Hp).
      unfold is_file in *.
      destruct (fs w !! p) as [[cp|]|] eqn:Hpp; [|done..].
      rewrite lookup_insert_ne by congruence.
      destruct move; [|by rewrite Hpp].
      destruct Hnp as [?|?]; [|done]. by rewrite lookup_delete_ne, Hpp.
    + intros Hm. specialize (Hnd Hm). by apply NoDup_cons in Hnd as [_ ?].
Qed.


(** ** Listing a directory *)

Lemma child_name_Some (d p : Path) (name : string) :
  child_name d p = Some name ↔ p = joinpath d name.
Proof.
  unfold child_name, parent, basename, joinpath. split.
  - case_bool_decide as H; [|done]. destruct H as [Hne <-]. intros [= <-].
    by apply app_removelast_last.
  - intros ->. rewrite bool_decide_true.
    + by rewrite last_last.
    + split; [by destruct d|apply removelast_last].
Qed.

Lemma child_name_joinpath (d : Path) (name : string) :
  child_name d (joinpath d name) = Some name.
Proof. by apply child_name_Some. Qed.

Lemma elem_of_listdir (m : gmap Path node) (d : Path) (name : string)
    (n : node) :
  (name, n) ∈ listdir m d ↔ m !! joinpath d name = Some n.
Proof.
  unfold listdir. rewrite list_elem_of_omap. split.
  - intros ([p n'] & Hin%elem_of_map_to_list & Hf).
    destruct (child_name d p) as [name'|] eqn:E; [|done].
    cbn in Hf. injection Hf as -> ->. apply child_name_Some in E. by subst p.
  - intros H. exists (joinpath d name, n). split.
    + by apply elem_of_map_to_list.
    + by rewrite child_name_joinpath.
Qed.

Lemma lookup_children (m : gmap Path node) (d : Path) (name : string) :
  children m d !! name = m !! joinpath d name.
Proof.
  unfold children. apply option_eq. intros n. split.
  - intros H%elem_of_list_to_map_2. by apply elem_of_listdir.
  - intros H. apply elem_of_list_to_map_1'.
    + intros n' Hn'%elem_of_listdir. congruence.
    + by apply elem_of_listdir.
Qed.

Lemma children_agree (m m' : gmap Path node) (d : Path) :
  (∀ name, m !! joinpath d name = m' !! joinpath d name) →
  children m d = children m' d.
Proof. intros H. apply map_eq. intros name. by rewrite !lookup_children. Qed.

Lemma scan_agree (order : Scandir) (m m' : gmap Path node) (top : Path) :
  m !! top = m' !! top →
  (∀ name, m !! joinpath top name = m' !! joinpath top name) →
  scan order m top = scan order m' top.
Proof.
  intros Ht Hc. unfold scan. rewrite Ht. by rewrite (children_agree m m').
Qed.

(** What a listing holds: the directories and the files of [top], each
    name once. *)
Lemma scan_Some (order : Scandir) (m : gmap Path node) (top : Path)
    (dirnames filenames : list string) :
  scan order m top = Some (dirnames, filenames) →
  m !! top = Some Directory
  ∧ NoDup dirnames ∧ NoDup filenames
  ∧ (∀ d, d ∈ dirnames ↔ m !! joinpath top d = Some Directory)
  ∧ (∀ f, f ∈ filenames ↔ is_file m (joinpath top f)).
Proof.
  unfold scan. destruct (m !! top) as [[c|]|] eqn:Ht; [done| |done].
  intros [= <- <-].
  pose proof (scandir_perm order (children m top)) as Hperm.
  assert (Hnd : NoDup (order (children m top)).*1).
  { rewrite Hperm. apply NoDup_fst_map_to_list. }
  assert (Hin : ∀ name n, (name, n) ∈ order (children m top)
                          ↔ m !! joinpath top name = Some n).
  { intros name n. rewrite Hperm, elem_of_map_to_list. by rewrite lookup_children. }
  assert (Hsub : ∀ (P : string * node → Prop) `{!∀ e, Decision (P e)},
            NoDup (filter P (order (children m top))).*1).
  { intros P ?. eapply sublist_NoDup; [exact Hnd|].
    apply fmap_sublist, sublist_filter. }
  split_and!; [done|apply Hsub|apply Hsub| |].
  - intros d. rewrite list_elem_of_fmap. split.
    + intros ([name n] & -> & [Hd Hn]%list_elem_of_filter). cbn in *.
      apply Hin in Hn. by destruct n.
    + intros H. exists (d, Directory). split; [done|].
      apply list_elem_of_filter. split; [done|by apply Hin].
  - intros f. rewrite list_elem_of_fmap. unfold is_file. split.
    + intros ([name n] & -> & [Hd Hn]%list_elem_of_filter). cbn in *.
      apply Hin in Hn. rewrite Hn. destruct n; [done|]. by destruct Hd.
    + intros H. destruct (m !! joinpath top f) as [[c|]|] eqn:E;
        [|by destruct H..].
      exists (f, File c). split; [done|].
      apply list_elem_of_filter. split; [intros Hx; exact Hx|by apply Hin].
Qed.

(** ** Prefixes of paths *)

Lemma joinpath_prefix_inj (top x : Path) (d d' : string) :
  joinpath top d `prefix_of` x → joinpath top d' `prefix_of` x → d = d'.
Proof.
  intros H1 H2. apply (joinpath_inj top).
  destruct (prefix_weak_total _ _ _ H1 H2) as [H|H].
  - apply (prefix_length_eq _ _ H). unfold joinpath. rewrite !length_app. done.
  - symmetry. apply (prefix_length_eq _ _ H). unfold joinpath. rewrite !length_app. done.
Qed.

Lemma inside_joinpath (top x : Path) (d : string) :
  inside (joinpath top d) x → joinpath top d `prefix_of` x.
Proof.
  intros [e He]. etrans; [|exact He]. unfold joinpath. by apply prefix_app_r.
Qed.

Lemma inside_below (top x : Path) (d : string) :
  joinpath top d `prefix_of` x → inside top x.
Proof. intros H. by exists d. Qed.

Lemma entry_of_inside (top x : Path) : entry_of top x → inside top x.
Proof. intros [name ->]. by exists name. Qed.

Lemma prefix_inside (top x : Path) :
  top `prefix_of` x → x = top ∨ inside top x.
Proof.
  intros [k ->]. destruct k as [|d k].
  - left. by rewrite app_nil_r.
  - right. exists d. exists k. unfold joinpath. by rewrite <- app_assoc.
Qed.

Lemma inside_prefix (top x : Path) : inside top x → top `prefix_of` x.
Proof.
  intros [d Hd]. etrans; [|exact Hd]. unfold joinpath. by apply prefix_app_r.
Qed.

Lemma inside_irrefl (top : Path) : ¬ inside top top.
Proof.
  intros [d Hd%prefix_length]. unfold joinpath in Hd.
  rewrite length_app in Hd. cbn in Hd. lia.
Qed.

(** ** The loop over a sequence *)

Lemma elem_of_flat_map {A B} (f : A → list B) (l : list A) (y : B) :
  y ∈ flat_map f l ↔ ∃ x, x ∈ l ∧ y ∈ f x.
Proof.
  rewrite list_elem_of_In, in_flat_map.
  by setoid_rewrite list_elem_of_In.
Qed.

Lemma for_walked_app (body : Path → list string → Z → M Z)
    (l1 l2 : list (Path * list string)) (count : Z) (w : world) :
  for_walked body (l1 ++ l2) count w
  = (count' <- for_walked body l1 count ;; for_walked body l2 count') w.
Proof.
  revert count w. induction l1 as [|[root filenames] l1 IH]; intros count w.
  - done.
  - cbn [for_walked app]. rewrite bind_assoc. apply bind_ext. intros; apply IH.
Qed.

Lemma bind_unfold {A B} (m : M A) (k : A → M B) (w : world) :
  bind m k w
  = match m w with
    | (Return a, w') => k a w'
    | (Raise e, w') => (Raise e, w')
    | (OutOfFuel, w') => (OutOfFuel, w')
    end.
Proof. reflexivity. Qed.

Lemma bind_ret {A} (m : M A) (w : world) : (a <- m ;; ret a) w = m w.
Proof. unfold bind, ret. by destruct (m w) as [[a|e|] w']. Qed.

(** ** The walk of a tree that the bodies leave alone *)

Section Snapshot.

Variable order : Scandir.
Variable body : Path → list string → Z → M Z.
Variable written : Path → Prop.
Variable m0 : gmap Path node.

(** The walks of the directories [ds] of [top], one after the other. *)
Lemma for_each_snapshot (f : string → Z → M Z)
    (g : string → list (Path * list string)) (top : Path)
    (ds : list string) (count : Z) (w : world) :
  NoDup ds →
  (∀ d count' w',
     d ∈ ds →
     (∀ x, joinpath top d `prefix_of` x → fs w' !! x = m0 !! x) →
     f d count' w' = for_walked body (g d) count' w'
     ∧ ∀ x, ¬ written x → ¬ inside (joinpath top d) x →
            fs (f d count' w').2 !! x = fs w' !! x) →
  (∀ d x, d ∈ ds → joinpath top d `prefix_of` x → fs w !! x = m0 !! x) →
  (∀ x, written x → ¬ inside top x) →
  for_each f ds count w = for_walked body (flat_map g ds) count w
  ∧ ∀ x, ¬ written x → ¬ inside top x →
         fs (for_each f ds count w).2 !! x = fs w !! x.
Proof.
  intros Hnd Hf Hagree Hw. revert count w Hagree.
  induction ds as [|d ds IH]; intros count w Hagree; [done|].
  apply NoDup_cons in Hnd as [Hd Hnd].
  cbn [for_each flat_map]. rewrite for_walked_app.
  destruct (Hf d count w) as [Heq Hpost];
    [apply list_elem_of_here|by intros; eapply Hagree; [apply list_elem_of_here|]|].
  unfold bind. rewrite <- Heq.
  destruct (f d count w) as [[c|e|] w1] eqn:E; cbn [fst snd] in *.
  - destruct (IH Hnd) with (count := c) (w := w1) as [Heq' Hpost'].
    { intros; apply Hf; [by apply list_elem_of_further|done]. }
    { intros d' x Hd' Hx. rewrite Hpost.
      - eapply Hagree; [by apply list_elem_of_further|done].
      - intros Hwr. eapply Hw; [done|]. by eapply inside_below.
      - intros Hin%inside_joinpath.
        assert (d = d') by (by eapply joinpath_prefix_inj). by subst. }
    split; [done|]. intros x Hx1 Hx2. rewrite Hpost'; [|done..].
    apply Hpost; [done|]. intros Hin%inside_joinpath. apply Hx2.
    by eapply inside_below.
  - split; [done|]. intros x Hx1 Hx2. apply Hpost; [done|].
    intros Hin%inside_joinpath. apply Hx2. by eapply inside_below.
  - split; [done|]. intros x Hx1 Hx2. apply Hpost; [done|].
    intros Hin%inside_joinpath. apply Hx2. by eapply inside_below.
Qed.

(** When the bodies change nothing below the directories that are still to
    be listed, the walk yields what it yields in the file system [m0] it
    starts with. *)
Lemma walk_snapshot (fuel : nat) (top : Path) (count : Z) (w : world) :
  deep_enough m0 fuel top →
  (∀ x, top `prefix_of` x → fs w !! x = m0 !! x) →
  (∀ x, written x → ¬ inside top x) →
  (∀ root filenames,
     (root, filenames) ∈ walk_list order (S fuel) m0 top →
     body_framed body written root filenames) →
  walk_bottom_up order (S fuel) body top count w
  = for_walked body (walk_list order (S fuel) m0 top) count w
  ∧ ∀ x, ¬ written x → ¬ inside top x →
         fs (walk_bottom_up order (S fuel) body top count w).2 !! x
         = fs w !! x.
Proof.
  revert top count w.
  induction fuel as [fuel IH] using lt_wf_ind.
  intros top count w Hdeep Hagree Hw Hbody.
  cbn [walk_bottom_up walk_list].
  assert (Hscan : scan order (fs w) top = scan order m0 top).
  { apply scan_agree; [by apply Hagree|].
    intros name. apply Hagree. unfold joinpath. by apply prefix_app_r. }
  rewrite Hscan. cbn [walk_list] in Hbody.
  destruct (scan order m0 top) as [[dirnames filenames]|] eqn:Es; [|done].
  destruct (scan_Some _ _ _ _ _ Es) as (Htop & Hnd & _ & Hdirs & _).
  rewrite for_walked_app.
  assert (Hsub : ∀ d, d ∈ dirnames →
            ∃ fuel', fuel = S fuel' ∧ deep_enough m0 fuel' (joinpath top d)).
  { intros d Hd%Hdirs.
    pose proof (Hdeep _ Hd ltac:(unfold joinpath; by apply prefix_app_r)) as Hlen.
    unfold joinpath in Hlen. rewrite length_app in Hlen. cbn in Hlen.
    destruct fuel as [|fuel']; [lia|]. exists fuel'. split; [done|].
    intros q Hq Hpre. unfold joinpath. rewrite length_app. cbn.
    assert (top `prefix_of` q).
    { etrans; [|exact Hpre]. unfold joinpath. by apply prefix_app_r. }
    specialize (Hdeep q Hq H). lia. }
  destruct (for_each_snapshot
              (λ d, walk_bottom_up order fuel body (joinpath top d))
              (λ d, walk_list order fuel m0 (joinpath top d))
              top dirnames count w) as [Heq Hpost]; [done| | |done|].
  { intros d count' w' Hd Hag. destruct (Hsub d Hd) as (fuel' & -> & Hdeep').
    apply IH; [lia|done|done| |].
    - intros x Hx Hin%inside_joinpath. eapply Hw; [done|]. by eapply inside_below.
    - intros root fns Hin. apply Hbody. apply elem_of_app. left.
      apply elem_of_flat_map. by exists d. }
  { intros d x Hd Hx. apply Hagree. etrans; [|exact Hx].
    unfold joinpath. by apply prefix_app_r. }
  rewrite !bind_unfold, <- Heq.
  destruct (for_each _ dirnames count w) as [[c|e|] w1] eqn:E;
    cbn [fst snd] in *; [|done..].
  cbn [for_walked]. rewrite bind_ret.
  split; [done|]. intros x Hx1 Hx2.
  destruct (Hbody top filenames) with (count := c) (w := w1) as [_ Hfr].
  { apply elem_of_app. right. apply list_elem_of_here. }
  rewrite Hfr; [by apply Hpost|done|].
  intros Hent%entry_of_inside. done.
Qed.

End Snapshot.

(** ** The body of [rcopy] *)

Lemma transfer_total (root : Path) (filename : string) (dst : Path)
    (move quiet dryrun : bool) (count : Z) (w : world) :
  (transfer root filename dst move quiet dryrun count w).1 ≠ OutOfFuel.
Proof.
  destruct dryrun.
  - by rewrite transfer_dryrun.
  - rewrite transfer_real. by destruct (commit _ _ _ _).
Qed.

Lemma for_matched_total (files : list (Path * string)) (dst : Path)
    (move quiet dryrun : bool) (count : Z) (w : world) :
  (for_matched files dst move quiet dryrun count w).1 ≠ OutOfFuel.
Proof.
  revert count w. induction files as [|[root filename] rest IH]; intros count w.
  - done.
  - cbn [for_matched]. rewrite bind_unfold.
    pose proof (transfer_total root filename dst move quiet dryrun count w) as Ht.
    destruct (transfer _ _ _ _ _ _ _ w) as [[c|e|] w1]; [apply IH|done|done].
Qed.

Lemma commit_frame (move : bool) (src dst x : Path) (m m' : gmap Path node) :
  commit move src dst m = inr m' → x ≠ dst → x ≠ src → m' !! x = m !! x.
Proof.
  unfold commit. destruct (m !! src) as [[c|]|]; [|done..].
  destruct (m !! parent dst) as [[?|]|]; [done| |done].
  intros [= <-] Hd Hs. rewrite lookup_insert_ne by done.
  destruct move; [|done]. by rewrite lookup_delete_ne.
Qed.

Lemma commit_directory (move : bool) (src dst x : Path)
    (m m' : gmap Path node) :
  m !! dst = None → commit move src dst m = inr m' →
  m' !! x = Some Directory ↔ m !! x = Some Directory.
Proof.
  unfold commit. destruct (m !! src) as [[c|]|] eqn:Es; [|done..].
  destruct (m !! parent dst) as [[?|]|]; [done| |done].
  intros Hd [= <-].
  destruct (decide (x = dst)) as [->|Hne].
  - rewrite lookup_insert_eq, Hd. split; intros [=].
  - rewrite lookup_insert_ne by done. destruct move; [|done].
    destruct (decide (x = src)) as [->|Hns].
    + rewrite lookup_delete_eq, Es. split; intros [=].
    + by rewrite lookup_delete_ne.
Qed.

(** A run that is not dry changes entries of the destination and matched
    sources, nothing else, and no directory. *)
Lemma for_matched_frame (files : list (Path * string)) (dst : Path)
    (move quiet : bool) (count : Z) (w : world) (x : Path) :
  ¬ entry_of dst x → x ∉ sources files →
  fs (for_matched files dst move quiet false count w).2 !! x = fs w !! x.
Proof.
  revert count w. induction files as [|[root filename] rest IH];
    intros count w Hd Hs; [done|].
  unfold sources in Hs. rewrite fmap_cons in Hs.
  apply not_elem_of_cons in Hs as [Hs1 Hs2]. cbn [fst snd] in Hs1.
  cbn [for_matched]. rewrite bind_unfold, transfer_real.
  destruct (commit _ _ _ _) as [e|m'] eqn:Hc; [done|].
  rewrite IH by done. cbn [fs].
  eapply commit_frame; [done| |done].
  intros ->. apply Hd. by eexists.
Qed.

Lemma for_matched_directory (files : list (Path * string)) (dst : Path)
    (move quiet dryrun : bool) (count : Z) (w : world) (x : Path) :
  fs (for_matched files dst move quiet dryrun count w).2 !! x = Some Directory
  ↔ fs w !! x = Some Directory.
Proof.
  destruct dryrun; [by rewrite for_matched_dryrun|].
  revert count w. induction files as [|[root filename] rest IH];
    intros count w; [done|].
  cbn [for_matched]. rewrite bind_unfold, transfer_real.
  destruct (commit _ _ _ _) as [e|m'] eqn:Hc; [done|].
  rewrite IH. cbn [fs].
  eapply commit_directory; [apply free_path_free|done].
Qed.

Lemma collect_matched (fnmatch : string → string → bool) (pattern : string)
    (dst : Path) (move quiet dryrun : bool) (root : Path)
    (filenames : list string) (count : Z) (w : world) :
  collect fnmatch pattern dst move quiet dryrun root filenames count w
  = for_matched (matched fnmatch pattern [(root, filenames)])
      dst move quiet dryrun count w.
Proof.
  unfold collect, matched. cbn [flat_map]. rewrite app_nil_r.
  apply for_filenames_matched.
Qed.

Lemma for_walked_matched (fnmatch : string → string → bool)
    (pattern : string) (walked : list (Path * list string)) (dst : Path)
    (move quiet dryrun : bool) (count : Z) (w : world) :
  for_walked (collect fnmatch pattern dst move quiet dryrun) walked count w
  = for_matched (matched fnmatch pattern walked) dst move quiet dryrun count w.
Proof.
  revert count w. induction walked as [|[root filenames] rest IH]; intros count w.
  - done.
  - cbn [for_walked]. change ((root, filenames) :: rest)
      with ([(root, filenames)] ++ rest).
    unfold matched at 1. rewrite flat_map_app. fold (matched fnmatch pattern).
    rewrite for_matched_app, !bind_unfold, collect_matched.
    destruct (for_matched _ _ _ _ _ _ w) as [[a|e|] w']; [apply IH|done..].
Qed.

Lemma sources_matched_entry (fnmatch : string → string → bool)
    (pattern : string) (root : Path) (filenames : list string) (x : Path) :
  x ∈ sources (matched fnmatch pattern [(root, filenames)]) →
  ∃ name, x = joinpath root name ∧ name ∈ filenames
          ∧ fnmatch name pattern = true.
Proof.
  unfold sources, matched. cbn [flat_map]. rewrite app_nil_r.
  intros ([r f] & -> & (name & [= -> ->] & Hf)%list_elem_of_fmap)%list_elem_of_fmap.
  apply list_elem_of_filter in Hf as [Hf1 Hf2]. exists name.
  split_and!; [done|done|by apply Is_true_true].
Qed.

(** The body of a dry run changes nothing in the file system. *)
Lemma collect_framed_dryrun (fnmatch : string → string → bool)
    (pattern : string) (dst : Path) (move quiet : bool) (root : Path)
    (filenames : list string) :
  body_framed (collect fnmatch pattern dst move quiet true) (λ _, False)
    root filenames.
Proof.
  intros count w. rewrite collect_matched. split.
  - apply for_matched_total.
  - intros x _ _. by rewrite for_matched_dryrun.
Qed.

(** The body of a run changes entries of its directory and of the
    destination only. *)
Lemma collect_framed (fnmatch : string → string → bool)
    (pattern : string) (dst : Path) (move quiet dryrun : bool) (root : Path)
    (filenames : list string) :
  body_framed (collect fnmatch pattern dst move quiet dryrun) (entry_of dst)
    root filenames.
Proof.
  destruct dryrun.
  { intros count w. destruct (collect_framed_dryrun fnmatch pattern dst
      move quiet root filenames count w) as [? H]. split; [done|].
    intros x _ Hx. by rewrite collect_matched, for_matched_dryrun. }
  intros count w. rewrite collect_matched. split.
  - apply for_matched_total.
  - intros x Hd Hr. apply for_matched_frame; [done|].
    intros (name & -> & _)%sources_matched_entry. apply Hr. by eexists.
Qed.

(** ** The fuel of the walk *)

Lemma deep_enough_walk_fuel (m : gmap Path node) (top : Path) :
  deep_enough m (S (max_list (length <$> (map_to_list m).*1))) top.
Proof.
  intros q Hq _.
  assert (length q ≤ max_list (length <$> (map_to_list m).*1))%nat; [|lia].
  apply max_list_elem_of_le, list_elem_of_fmap. exists q. split; [done|].
  apply list_elem_of_fmap. exists (q, Directory). split; [done|].
  by apply elem_of_map_to_list.
Qed.

Lemma deep_enough_child (m : gmap Path node) (fuel : nat) (top : Path)
    (d : string) :
  deep_enough m fuel top → m !! joinpath top d = Some Directory →
  ∃ fuel', fuel = S fuel' ∧ deep_enough m fuel' (joinpath top d).
Proof.
  intros Hdeep Hd.
  pose proof (Hdeep _ Hd ltac:(unfold joinpath; by apply prefix_app_r)) as Hlen.
  unfold joinpath in Hlen. rewrite length_app in Hlen. cbn in Hlen.
  destruct fuel as [|fuel']; [lia|]. exists fuel'. split; [done|].
  intros q Hq Hpre. unfold joinpath. rewrite length_app. cbn.
  assert (top `prefix_of` q).
  { etrans; [|exact Hpre]. unfold joinpath. by apply prefix_app_r. }
  specialize (Hdeep q Hq H). lia.
Qed.

(** ** What a walk yields *)

Lemma walk_list_entry (order : Scandir) (fuel : nat) (m : gmap Path node)
    (top root : Path) (filenames : list string) :
  (root, filenames) ∈ walk_list order fuel m top →
  top `prefix_of` root
  ∧ m !! root = Some Directory
  ∧ NoDup filenames
  ∧ ∀ f, f ∈ filenames ↔ is_file m (joinpath root f).
Proof.
  revert top. induction fuel as [|fuel IH]; intros top; cbn [walk_list].
  - by intros ?%elem_of_nil.
  - destruct (scan order m top) as [[ds fns]|] eqn:Es; [|by intros ?%elem_of_nil].
    destruct (scan_Some _ _ _ _ _ Es) as (Htop & _ & Hnd & _ & Hfiles).
    intros [(d & Hd & Hin)%elem_of_flat_map|[= -> ->]%list_elem_of_singleton]%elem_of_app.
    + destruct (IH _ Hin) as (Hpre & ?). split; [|done].
      etrans; [|exact Hpre]. unfold joinpath. by apply prefix_app_r.
    + done.
Qed.

Lemma walk_list_NoDup (order : Scandir) (fuel : nat) (m : gmap Path node)
    (top : Path) :
  NoDup (walk_list order fuel m top).*1.
Proof.
  revert top. induction fuel as [|fuel IH]; intros top; cbn [walk_list].
  - constructor.
  - destruct (scan order m top) as [[ds fns]|] eqn:Es; [|constructor].
    destruct (scan_Some _ _ _ _ _ Es) as (_ & Hnd & _).
    rewrite fmap_app. apply NoDup_app. split_and!.
    + clear Es. induction ds as [|d ds IHds]; [constructor|].
      apply NoDup_cons in Hnd as [Hd Hnd]. cbn [flat_map].
      rewrite fmap_app. apply NoDup_app. split_and!; [apply IH| |by apply IHds].
      intros r ([r1 f1] & -> & Hin1)%list_elem_of_fmap
               ([r2 f2] & Heq & (d' & Hd' & Hin2)%elem_of_flat_map)%list_elem_of_fmap.
      cbn in Heq. subst r2.
      apply walk_list_entry in Hin1 as (Hp1 & _), Hin2 as (Hp2 & _).
      assert (d = d') by (by eapply joinpath_prefix_inj). by subst.
    + intros r ([r1 f1] & -> & (d & Hd & Hin)%elem_of_flat_map)%list_elem_of_fmap.
      intros Hr%list_elem_of_singleton. cbn in Hr. subst r1.
      apply walk_list_entry in Hin as (Hp & _).
      apply (inside_irrefl top). by exists d.
    + apply NoDup_singleton.
Qed.

(** The walks of two file systems that agree below [top] yield the
    same. *)
Lemma walk_list_agree (order : Scandir) (fuel fuel' : nat)
    (m m' : gmap Path node) (top : Path) :
  deep_enough m fuel top → deep_enough m' fuel' top →
  (∀ x, top `prefix_of` x → m !! x = m' !! x) →
  walk_list order (S fuel) m top = walk_list order (S fuel') m' top.
Proof.
  revert fuel' top. induction fuel as [fuel IH] using lt_wf_ind.
  intros fuel' top Hd Hd' Hag. cbn [walk_list].
  rewrite <- (scan_agree order m m' top);
    [|by apply Hag|by intros; apply Hag; unfold joinpath; apply prefix_app_r].
  destruct (scan order m top) as [[ds fns]|] eqn:Es; [|done].
  destruct (scan_Some _ _ _ _ _ Es) as (_ & _ & _ & Hdirs & _).
  f_equal. clear Es.
  assert (Hds : ∀ d, d ∈ ds → m !! joinpath top d = Some Directory)
    by (intros d Hin; by apply Hdirs).
  clear Hdirs. induction ds as [|d ds IHds]; [done|].
  cbn [flat_map]. rewrite IHds by (intros d' Hd''; apply Hds; by right).
  f_equal.
  assert (Hdir : m !! joinpath top d = Some Directory)
    by (apply Hds; by left).
  destruct (deep_enough_child m fuel top d Hd Hdir) as (f1 & -> & Hd1).
  destruct (deep_enough_child m' fuel' top d Hd') as (f1' & -> & Hd1').
  { rewrite <- Hag; [done|]. unfold joinpath. by apply prefix_app_r. }
  apply IH; [lia|done|done|].
  intros x Hx. apply Hag. etrans; [|exact Hx]. unfold joinpath. by apply prefix_app_r.
Qed.

(** The sources of a walk are regular files, each listed once. *)
Lemma matched_cons (fnmatch : string → string → bool) (pattern : string)
    (root : Path) (filenames : list string)
    (walked : list (Path * list string)) :
  matched fnmatch pattern ((root, filenames) :: walked)
  = matched fnmatch pattern [(root, filenames)]
    ++ matched fnmatch pattern walked.
Proof. unfold matched. cbn [flat_map]. by rewrite app_nil_r. Qed.

Lemma sources_app (l1 l2 : list (Path * string)) :
  sources (l1 ++ l2) = sources l1 ++ sources l2.
Proof. unfold sources. apply fmap_app. Qed.

Lemma sources_matched (fnmatch : string → string → bool) (pattern : string)
    (walked : list (Path * list string)) (x : Path) :
  x ∈ sources (matched fnmatch pattern walked) →
  ∃ root filenames name,
    (root, filenames) ∈ walked ∧ x = joinpath root name
    ∧ name ∈ filenames ∧ fnmatch name pattern = true.
Proof.
  induction walked as [|[root filenames] rest IH].
  - by intros ?%elem_of_nil.
  - rewrite matched_cons, sources_app.
    intros [(name & -> & ? & ?)%sources_matched_entry|Hx]%elem_of_app.
    + exists root, filenames, name. split_and!; [by left|done..].
    + destruct (IH Hx) as (r & fns & name & ? & ? & ? & ?).
      exists r, fns, name. split_and!; [by right|done..].
Qed.

Lemma joinpath_eq (p q : Path) (a b : string) :
  joinpath p a = joinpath q b → p = q ∧ a = b.
Proof. unfold joinpath. intros H. by apply app_inj_tail in H. Qed.

Lemma sources_NoDup (fnmatch : string → string → bool) (pattern : string)
    (walked : list (Path * list string)) :
  NoDup walked.*1 → Forall (λ e, NoDup e.2) walked →
  NoDup (sources (matched fnmatch pattern walked)).
Proof.
  induction walked as [|[root filenames] rest IH]; intros Hr Hf.
  - constructor.
  - rewrite fmap_cons in Hr. apply NoDup_cons in Hr as [Hr1 Hr2].
    apply Forall_cons in Hf as [Hf1 Hf2]. cbn [fst snd] in *.
    rewrite matched_cons, sources_app. apply NoDup_app. split_and!.
    + unfold sources, matched. cbn [flat_map]. rewrite app_nil_r.
      rewrite <- list_fmap_compose. apply NoDup_fmap_2.
      * intros a b Hab. cbn in Hab. by apply joinpath_eq in Hab as [_ ?].
      * by apply NoDup_filter.
    + intros x (name & -> & _)%sources_matched_entry
               (r & fns & name' & Hin & Heq & _)%sources_matched.
      apply joinpath_eq in Heq as [-> _]. apply Hr1.
      apply list_elem_of_fmap. by exists (r, fns).
    + by apply IH.
Qed.

(** ** Every walk is the loop over a sequence *)

Section Walked.

Variable order : Scandir.
Variable body : Path → list string → Z → M Z.
Variable m0 : gmap Path node.

Hypothesis body_dirs : ∀ root filenames count w,
  dirs_within m0 w → dirs_within m0 (body root filenames count w).2.

(** The body leaves the regular files that are not in its directory. *)
Hypothesis body_keeps : ∀ root filenames count w p,
  ¬ entry_of root p → is_file (fs w) p →
  is_file (fs (body root filenames count w).2) p.

Lemma listed_when_reached_app (l1 l2 : list (Path * list string))
    (count : Z) (w : world) :
  listed_when_reached body (l1 ++ l2) count w
  ↔ listed_when_reached body l1 count w
    ∧ match for_walked body l1 count w with
      | (Return c, w1) => listed_when_reached body l2 c w1
      | _ => True
      end.
Proof.
  revert count w. induction l1 as [|[root fns] l1 IH]; intros count w.
  - cbn. tauto.
  - cbn [app listed_when_reached for_walked]. rewrite bind_unfold.
    destruct (body root fns count w) as [[c|e|] w1]; [rewrite IH|..]; tauto.
Qed.

Lemma for_each_walked (f : string → Z → M Z) (top : Path)
    (ds : list string) (count : Z) (w : world) :
  (∀ d count' w',
     d ∈ ds → dirs_within m0 w' →
     ∃ walked,
       Forall (λ e, joinpath top d `prefix_of` e.1) walked
       ∧ f d count' w' = for_walked body walked count' w'
       ∧ dirs_within m0 (f d count' w').2
       ∧ listed_when_reached body walked count' w'
       ∧ ∀ p, ¬ inside (joinpath top d) p → is_file (fs w') p →
              is_file (fs (f d count' w').2) p) →
  dirs_within m0 w →
  ∃ walked,
    Forall (λ e, top `prefix_of` e.1) walked
    ∧ for_each f ds count w = for_walked body walked count w
    ∧ dirs_within m0 (for_each f ds count w).2
    ∧ listed_when_reached body walked count w
    ∧ ∀ p, (∀ d, d ∈ ds → ¬ inside (joinpath top d) p) → is_file (fs w) p →
           is_file (fs (for_each f ds count w).2) p.
Proof.
  intros Hf. revert count w. induction ds as [|d ds IH]; intros count w Hw.
  - exists []. by split_and!.
  - destruct (Hf d count w) as (l1 & Hl1 & Heq1 & Hw1 & Hr1 & Hk1);
      [by left|done|].
    assert (Hl1' : Forall (λ e, top `prefix_of` e.1) l1).
    { eapply Forall_impl; [exact Hl1|]. intros e He. etrans; [|exact He].
      unfold joinpath. by apply prefix_app_r. }
    cbn [for_each]. rewrite bind_unfold.
    destruct (f d count w) as [[c|e|] w1] eqn:E; cbn [fst snd] in *.
    + destruct (IH ltac:(intros; apply Hf; [by right|done]) c w1 Hw1)
        as (l2 & Hl2 & Heq2 & Hw2 & Hr2 & Hk2).
      exists (l1 ++ l2). split_and!; [by apply Forall_app| |done| |].
      * by rewrite for_walked_app, bind_unfold, <- Heq1.
      * apply listed_when_reached_app. split; [done|]. by rewrite <- Heq1.
      * intros p Hp Hfile. apply Hk2.
        -- intros d' Hd'. apply Hp. by right.
        -- apply Hk1; [|done]. apply Hp. by left.
    + exists l1. split_and!; [done..|].
      intros p Hp Hfile. apply Hk1; [|done]. apply Hp. by left.
    + exists l1. split_and!; [done..|].
      intros p Hp Hfile. apply Hk1; [|done]. apply Hp. by left.
Qed.

Lemma walk_walked (fuel : nat) (top : Path) (count : Z) (w : world) :
  deep_enough m0 fuel top → dirs_within m0 w →
  ∃ walked,
    Forall (λ e, top `prefix_of` e.1) walked
    ∧ walk_bottom_up order (S fuel) body top count w
      = for_walked body walked count w
    ∧ dirs_within m0 (walk_bottom_up order (S fuel) body top count w).2
    ∧ listed_when_reached body walked count w
    ∧ ∀ p, ¬ inside top p → is_file (fs w) p →
           is_file (fs (walk_bottom_up order (S fuel) body top count w).2) p.
Proof.
  revert top count w. induction fuel as [fuel IH] using lt_wf_ind.
  intros top count w Hdeep Hw. cbn [walk_bottom_up].
  destruct (scan order (fs w) top) as [[ds fns]|] eqn:Es;
    [|exists []; by split_and!].
  destruct (scan_Some _ _ _ _ _ Es) as (_ & _ & Hndf & Hdirs & Hfiles).
  destruct (for_each_walked
              (λ d, walk_bottom_up order fuel body (joinpath top d))
              top ds count w) as (l1 & Hl1 & Heq1 & Hw1 & Hr1 & Hk1); [|done|].
  { intros d count' w' Hd Hw'.
    destruct (deep_enough_child m0 fuel top d Hdeep) as (fuel' & -> & Hdeep').
    { by apply Hw, Hdirs. }
    apply IH; [lia|done|done]. }
  assert (Hentry : ∀ p d, entry_of top p → ¬ inside (joinpath top d) p).
  { intros p d [f ->] [e He%prefix_length]. unfold joinpath in He.
    rewrite !length_app in He. cbn in He. lia. }
  assert (Hbelow : ∀ p d, ¬ inside top p → ¬ inside (joinpath top d) p).
  { intros p d Hp Hin%inside_joinpath. apply Hp. by eapply inside_below. }
  rewrite bind_unfold.
  destruct (for_each _ ds count w) as [[c|e|] w1] eqn:E; cbn [fst snd] in *.
  - exists (l1 ++ [(top, fns)]). split_and!.
    + apply Forall_app. split; [done|]. by apply Forall_singleton.
    + rewrite for_walked_app, bind_unfold, <- Heq1. cbn [for_walked].
      by rewrite bind_ret.
    + by apply body_dirs.
    + apply listed_when_reached_app. split; [done|]. rewrite <- Heq1.
      cbn [listed_when_reached]. split.
      * split; [done|]. apply Forall_forall. intros f Hin.
        apply Hk1; [|by apply Hfiles]. intros d _. apply Hentry. by eexists.
      * by destruct (body top fns c w1) as [[?|?|] ?].
    + intros p Hp Hfile. apply body_keeps.
      * intros Hent%entry_of_inside. done.
      * apply Hk1; [|done]. intros d _. by apply Hbelow.
  - exists l1. split_and!; [done..|].
    intros p Hp Hfile. apply Hk1; [|done]. intros d _. by apply Hbelow.
  - exists l1. split_and!; [done..|].
    intros p Hp Hfile. apply Hk1; [|done]. intros d _. by apply Hbelow.
Qed.

End Walked.

(** ** [rcopy] as a loop over matched files *)

Section Runs.

Variable fnmatch : string → string → bool.
Variable order : Scandir.

(** The body of [rcopy] leaves the regular files that are not in its
    directory. *)
Lemma collect_keeps (pattern : string) (dst : Path)
    (move quiet dryrun : bool) (root : Path) (filenames : list string)
    (count : Z) (w : world) (p : Path) :
  ¬ entry_of root p → is_file (fs w) p →
  is_file (fs (collect fnmatch pattern dst move quiet dryrun root filenames
                 count w).2) p.
Proof.
  intros Hp Hfile. rewrite collect_matched. destruct dryrun.
  { by rewrite for_matched_dryrun. }
  unfold is_file in *. destruct (fs w !! p) as [[c|]|] eqn:E; [|done..].
  destruct (for_matched_preserves (matched fnmatch pattern [(root, filenames)])
              dst move quiet count w p (File c) E) as [->|[_ Hs]]; [done|].
  apply sources_matched_entry in Hs as (name & -> & _). destruct Hp. by eexists.
Qed.

(** A run handles some sequence of directories below the source
    directory, each with file names that are those of regular files when
    the run gets to them. *)
Lemma rcopy_reached (pattern : string) (src dst : Path)
    (move quiet dryrun : bool) (w : world) :
  ∃ walked,
    Forall (λ e, src `prefix_of` e.1) walked
    ∧ rcopy fnmatch order pattern src dst move quiet dryrun w
      = for_matched (matched fnmatch pattern walked)
          dst move quiet dryrun 0 w
    ∧ listed_when_reached (collect fnmatch pattern dst move quiet dryrun)
        walked 0 w.
Proof.
  assert (Hdirs : ∀ root fns count w',
            dirs_within (fs w) w' →
            dirs_within (fs w)
              (collect fnmatch pattern dst move quiet dryrun root fns count w').2).
  { intros root fns count w' Hw' x. rewrite collect_matched.
    rewrite for_matched_directory. apply Hw'. }
  destruct (walk_walked order _ (fs w) Hdirs
              (collect_keeps pattern dst move quiet dryrun)
              (S (max_list (length <$> (map_to_list (fs w)).*1))) src 0 w)
    as (walked & Hpre & Heq & _ & Hlisted & _).
  - apply deep_enough_walk_fuel.
  - by intros x.
  - exists walked. split_and!; [done| |done].
    rewrite <- for_walked_matched. apply Heq.
Qed.

(** A run handles some sequence of files below the source directory. *)
Lemma rcopy_walked (pattern : string) (src dst : Path)
    (move quiet dryrun : bool) (w : world) :
  ∃ walked,
    Forall (λ e, src `prefix_of` e.1) walked
    ∧ rcopy fnmatch order pattern src dst move quiet dryrun w
      = for_matched (matched fnmatch pattern walked)
          dst move quiet dryrun 0 w.
Proof.
  destruct (rcopy_reached pattern src dst move quiet dryrun w)
    as (walked & ? & ? & _).
  by exists walked.
Qed.

(** A dry run handles the files of the walk of the file system as it
    is. *)
Lemma rcopy_dryrun (pattern : string) (src dst : Path) (move quiet : bool)
    (w : world) :
  rcopy fnmatch order pattern src dst move quiet true w
  = for_matched (matched fnmatch pattern (snapshot order (fs w) src))
      dst move quiet true 0 w.
Proof.
  rewrite <- for_walked_matched.
  apply (walk_snapshot order _ (λ _, False) (fs w)).
  - apply deep_enough_walk_fuel.
  - done.
  - done.
  - intros. apply collect_framed_dryrun.
Qed.

Lemma prefix_snoc (l1 l2 : Path) (a : string) :
  l1 `prefix_of` l2 ++ [a] → l1 `prefix_of` l2 ∨ l1 = l2 ++ [a].
Proof.
  intros [k Hk]. destruct (decide (k = [])) as [->|Hne].
  - right. by rewrite app_nil_r in Hk.
  - left. destruct (exists_last Hne) as (k' & b & ->).
    rewrite app_assoc in Hk. apply app_inj_tail in Hk as [-> _].
    by apply prefix_app_r.
Qed.

Lemma entry_outside (src dst x : Path) :
  ¬ src `prefix_of` dst → entry_of dst x → ¬ inside src x.
Proof.
  intros Hout [name ->] [d Hd]. apply Hout.
  apply prefix_snoc in Hd as [Hd|Hd].
  - etrans; [|exact Hd]. unfold joinpath. by apply prefix_app_r.
  - apply joinpath_eq in Hd as [-> _]. done.
Qed.

(** So does every run whose destination is not the source directory and
    not below it. *)
Lemma rcopy_outside (pattern : string) (src dst : Path)
    (move quiet dryrun : bool) (w : world) :
  ¬ src `prefix_of` dst →
  rcopy fnmatch order pattern src dst move quiet dryrun w
  = for_matched (matched fnmatch pattern (snapshot order (fs w) src))
      dst move quiet dryrun 0 w.
Proof.
  intros Hout. rewrite <- for_walked_matched.
  apply (walk_snapshot order _ (entry_of dst) (fs w)).
  - apply deep_enough_walk_fuel.
  - done.
  - intros x Hx. by eapply entry_outside.
  - intros. apply collect_framed.
Qed.

(** The files of a walk are regular files below its top, each once. *)
Lemma snapshot_sources (pattern : string) (m : gmap Path node) (src : Path) :
  let files := matched fnmatch pattern (snapshot order m src) in
  Forall (λ p, is_file m p) (sources files)
  ∧ NoDup (sources files)
  ∧ Forall (λ rf, src `prefix_of` rf.1 ∧ fnmatch rf.2 pattern = true
                  ∧ is_file m (joinpath rf.1 rf.2)) files.
Proof.
  intros files. unfold files, snapshot. split_and!.
  - apply Forall_forall.
    intros x (root & fns & name & Hin & -> & Hn & _)%sources_matched.
    apply walk_list_entry in Hin as (_ & _ & _ & Hf). by apply Hf.
  - apply sources_NoDup; [apply walk_list_NoDup|].
    apply Forall_forall. intros [root fns] Hin.
    by apply walk_list_entry in Hin as (_ & _ & ? & _).
  - apply Forall_forall. intros [root name] Hin.
    assert (Hs : joinpath root name ∈ sources
              (matched fnmatch pattern
                 (walk_list order (walk_fuel m) m src))).
    { apply list_elem_of_fmap. by exists (root, name). }
    apply sources_matched in Hs as (r & fns & n & Hw & Heq & Hn & Hm).
    apply joinpath_eq in Heq as [-> ->].
    apply walk_list_entry in Hw as (? & _ & _ & Hf). cbn.
    split_and!; [done|done|by apply Hf].
Qed.

End Runs.

(** C10.  The search for a destination name ends: with [k] the least index
    whose candidate does not exist in the destination, which is at most
    the number of entries of the file system, the loop passes over the
    [k] candidates before it, which exist, and transfers the file to
    candidate [k]; then the count is one more, unless the library call
    raises.  The number of iterations the loop is given does not matter
    once it is more than the file system has entries. *)
Theorem candidate_search_terminates (root : Path) (filename : string)
    (dst : Path) (move quiet dryrun : bool) (count : Z) (w : world)
    (extra : nat) :
  let src := joinpath root filename in
  let k := first_free (fs w) dst filename in
  let dst_path := joinpath dst (candidate filename (Z.of_nat k)) in
  (k ≤ size (fs w))%nat
  ∧ Forall (λ c, is_Some (fs w !! joinpath dst c))
      (islice k (filenames_with_index filename None))
  ∧ nth_candidate (filenames_with_index filename None) k
    = Some (candidate filename (Z.of_nat k))
  ∧ fs w !! dst_path = None
  ∧ for_candidates (enough_fuel w + extra) (filenames_with_index filename None)
      src dst move quiet dryrun count w
    = transfer root filename dst move quiet dryrun count w
  ∧ transfer root filename dst move quiet dryrun count w
    = place src dst_path move quiet dryrun count w
  ∧ (transfer root filename dst move quiet dryrun count w).1
    = if dryrun then Return (count + 1)
      else match commit move src dst_path (fs w) with
           | inl e => Raise e
           | inr _ => Return (count + 1)
           end.
Proof.
  intros src k dst_path.
  destruct (first_free_spec (fs w) dst filename) as (Hk & Hb & Hn).
  split_and!; [done| |apply nth_candidate_unbounded|done| |apply transfer_place|].
  - change (filenames_with_index filename None) with (gen_at filename None 0).
    rewrite islice_gen_at by (by intros [|?] _).
    apply Forall_fmap, Forall_forall. intros j Hj%elem_of_seq. apply Hb. lia.
  - rewrite transfer_place. apply for_candidates_fuel. unfold enough_fuel. lia.
  - destruct dryrun.
    + by rewrite transfer_dryrun.
    + rewrite transfer_real. fold src. change (free_path (fs w) dst filename) with dst_path.
      by destruct (commit move src dst_path (fs w)).
Qed.

(** * The claims on the collector *)

(** A run never runs out of the steps it is given. *)
Lemma rcopy_total (fnmatch : string → string → bool) (order : Scandir)
    (pattern : string) (src dst : Path) (move quiet dryrun : bool)
    (w : world) :
  (rcopy fnmatch order pattern src dst move quiet dryrun w).1 ≠ OutOfFuel.
Proof.
  destruct (rcopy_walked fnmatch order pattern src dst move quiet dryrun w)
    as (walked & _ & ->).
  apply for_matched_total.
Qed.

Lemma filter_none {A} (P : A → Prop) `{!∀ x, Decision (P x)} (l : list A) :
  (∀ x, x ∈ l → ¬ P x) → filter P l = [].
Proof.
  intros Hno. destruct (filter P l) as [|y k] eqn:E; [done|].
  assert (Hy : y ∈ filter P l) by (rewrite E; by left).
  apply list_elem_of_filter in Hy as [Hy1 Hy2]. by destruct (Hno y Hy2).
Qed.

(** C5.  When the pattern matches the name of no regular file below the
    source directory, which is so when there is none, the run returns 0
    and leaves the file system and the output as they are. *)
Theorem no_match_no_effect (fnmatch : string → string → bool)
    (order : Scandir) (pattern : string) (src dst : Path)
    (move quiet dryrun : bool) (w : world) :
  map_Forall (λ p n, is_dir n = false → src `prefix_of` p →
                     fnmatch (basename p) pattern = false) (fs w) →
  rcopy fnmatch order pattern src dst move quiet dryrun w = (Return 0, w).
Proof.
  intros Hnone.
  assert (Hentry : ∀ root fns,
            (root, fns) ∈ snapshot order (fs w) src →
            fnmatch_filter fnmatch fns pattern = []).
  { intros root fns (Hpre & _ & _ & Hf)%walk_list_entry.
    unfold fnmatch_filter. apply filter_none.
    intros name Hn%Hf. unfold is_file in Hn.
    destruct (fs w !! joinpath root name) as [[c|]|] eqn:E; [|done..].
    assert (Hfalse : fnmatch (basename (joinpath root name)) pattern = false).
    { apply (Hnone _ _ E); [done|]. etrans; [exact Hpre|].
      unfold joinpath. by apply prefix_app_r. }
    unfold basename, joinpath in Hfalse. rewrite last_last in Hfalse.
    rewrite Hfalse. by intros []. }
  destruct (walk_snapshot order (collect fnmatch pattern dst move quiet dryrun)
              (λ _, False) (fs w)
              (S (max_list (length <$> (map_to_list (fs w)).*1))) src 0 w)
    as [Heq _].
  - apply deep_enough_walk_fuel.
  - done.
  - done.
  - intros root fns Hin count w'. unfold collect.
    by rewrite (Hentry root fns Hin).
  - unfold rcopy, walk_fuel. rewrite Heq. fold (walk_fuel (fs w)).
    fold (snapshot order (fs w) src).
    generalize (snapshot order (fs w) src) Hentry. clear.
    intros walked Hentry. induction walked as [|[root fns] rest IH]; [done|].
    cbn [for_walked]. unfold collect at 1.
    rewrite (Hentry root fns) by (by left). cbn [for_filenames].
    rewrite bind_unfold. cbn. apply IH. intros r f Hin. apply (Hentry r f). by right.
Qed.

Lemma no_match_no_effect_witness :
  rcopy fnmatchcase (ranked []) "*.md" ["src"] ["dest"] true false false
    scenario_world
  = (Return 0, scenario_world).
Proof.
  apply no_match_no_effect.
  apply (bool_decide_unpack _). vm_compute. exact I.
Defined.

(** ** The sources of a run are regular files *)

Lemma elem_of_matched (fnmatch : string → string → bool) (pattern : string)
    (walked : list (Path * list string)) (root : Path) (name : string) :
  (root, name) ∈ matched fnmatch pattern walked
  ↔ ∃ filenames, (root, filenames) ∈ walked ∧ name ∈ filenames
                 ∧ fnmatch name pattern = true.
Proof.
  unfold matched. rewrite elem_of_flat_map. split.
  - intros ([r fns] & Hin & (n & [= <- <-] & Hn)%list_elem_of_fmap).
    apply list_elem_of_filter in Hn as [Hm Hn]. exists fns.
    split_and!; [done|done|]. by destruct (fnmatch name pattern).
  - intros (fns & Hin & Hn & Hm). exists (root, fns). split; [done|].
    apply list_elem_of_fmap. exists name. split; [done|].
    apply list_elem_of_filter. split; [|done]. by rewrite Hm.
Qed.

Lemma transfer_keeps_files (root : Path) (filename : string) (dst : Path)
    (move quiet dryrun : bool) (count c : Z) (w w' : world) (p : Path) :
  transfer root filename dst move quiet dryrun count w = (Return c, w') →
  p ≠ joinpath root filename → is_file (fs w) p → is_file (fs w') p.
Proof.
  intros Ht Hp Hfile. destruct dryrun.
  - rewrite transfer_dryrun in Ht. by injection Ht as _ <-.
  - rewrite transfer_real in Ht.
    destruct (commit _ _ _ _) as [e|m'] eqn:Hc; [done|]. injection Ht as _ <-.
    unfold is_file in *. cbn [fs].
    destruct (fs w !! p) as [[content|]|] eqn:E; [|done..].
    destruct (commit_lookup _ _ _ p _ _ _ (free_path_free _ _ _) Hc E)
      as [->|[_ ?]]; done.
Qed.

Lemma regular_when_handled_app (l1 l2 : list (Path * string)) (dst : Path)
    (move quiet dryrun : bool) (count : Z) (w : world) :
  regular_when_handled (l1 ++ l2) dst move quiet dryrun count w
  ↔ regular_when_handled l1 dst move quiet dryrun count w
    ∧ match for_matched l1 dst move quiet dryrun count w with
      | (Return c, w1) => regular_when_handled l2 dst move quiet dryrun c w1
      | _ => True
      end.
Proof.
  revert count w. induction l1 as [|[root name] l1 IH]; intros count w.
  - cbn. tauto.
  - cbn [app regular_when_handled for_matched]. rewrite bind_unfold.
    destruct (transfer root name dst move quiet dryrun count w)
      as [[c|e|] w1]; [rewrite IH|..]; tauto.
Qed.

Lemma for_names_regular (root : Path) (names : list string) (dst : Path)
    (move quiet dryrun : bool) (count : Z) (w : world) :
  NoDup names →
  Forall (λ f, is_file (fs w) (joinpath root f)) names →
  regular_when_handled ((λ name, (root, name)) <$> names)
    dst move quiet dryrun count w.
Proof.
  revert count w. induction names as [|name names IH]; intros count w Hnd Hall;
    [done|].
  apply NoDup_cons in Hnd as [Hnot Hnd]. apply Forall_cons in Hall as [Hf Hall].
  rewrite fmap_cons. cbn [regular_when_handled]. split; [done|].
  destruct (transfer root name dst move quiet dryrun count w)
    as [[c|e|] w1] eqn:Et; [|done..].
  apply IH; [done|]. apply Forall_forall. intros f Hin.
  rewrite Forall_forall in Hall.
  eapply transfer_keeps_files; [exact Et| |by apply Hall].
  intros [_ ->]%joinpath_eq. done.
Qed.

Lemma listed_regular (fnmatch : string → string → bool) (pattern : string)
    (dst : Path) (move quiet dryrun : bool)
    (walked : list (Path * list string)) (count : Z) (w : world) :
  listed_when_reached (collect fnmatch pattern dst move quiet dryrun)
    walked count w →
  regular_when_handled (matched fnmatch pattern walked)
    dst move quiet dryrun count w.
Proof.
  revert count w. induction walked as [|[root fns] rest IH]; intros count w;
    [done|].
  cbn [listed_when_reached]. intros [[Hnd Hall] Hrest].
  rewrite matched_cons. apply regular_when_handled_app. split.
  - unfold matched. cbn [flat_map]. rewrite app_nil_r.
    apply for_names_regular; [by apply NoDup_filter|].
    apply Forall_forall. intros f [_ Hin]%list_elem_of_filter.
    rewrite Forall_forall in Hall. by apply Hall.
  - rewrite <- collect_matched.
    destruct (collect _ _ _ _ _ _ root fns count w) as [[c|e|] w1];
      [by apply IH|done..].
Qed.

Lemma rcopy_regular (fnmatch : string → string → bool) (order : Scandir)
    (pattern : string) (src dst : Path) (move quiet dryrun : bool)
    (w : world) :
  ∃ files,
    Forall (λ rf, src `prefix_of` rf.1 ∧ fnmatch rf.2 pattern = true) files
    ∧ rcopy fnmatch order pattern src dst move quiet dryrun w
      = for_matched files dst move quiet dryrun 0 w
    ∧ regular_when_handled files dst move quiet dryrun 0 w.
Proof.
  destruct (rcopy_reached fnmatch order pattern src dst move quiet dryrun w)
    as (walked & Hpre & Heq & Hl).
  exists (matched fnmatch pattern walked). split_and!; [|done|].
  - apply Forall_forall. intros [root name] Hin.
    apply elem_of_matched in Hin as (fns & Hin & _ & Hm).
    rewrite Forall_forall in Hpre. split; [|done]. apply (Hpre _ Hin).
  - by apply listed_regular.
Qed.


Lemma for_matched_regular_fails (root : Path) (name : string)
    (rest : list (Path * string)) (dst : Path) (move quiet : bool)
    (count : Z) (w : world) :
  fs w !! dst ≠ Some Directory →
  is_file (fs w) (joinpath root name) →
  let dst_path := free_path (fs w) dst name in
  for_matched ((root, name) :: rest) dst move quiet false count w
  = (Raise (match fs w !! dst with
            | None => FileNotFoundError dst_path
            | Some _ => NotADirectoryError dst_path
            end),
     World (fs w)
       (stdout w ++ report quiet move (joinpath root name) dst_path)).
Proof.
  intros Hdst Hfile dst_path. cbn [for_matched].
  rewrite bind_unfold, transfer_real. fold dst_path.
  unfold commit. unfold is_file in Hfile.
  destruct (fs w !! joinpath root name) as [[content|]|]; [|done..].
  unfold dst_path at 1, free_path. rewrite parent_joinpath.
  by destruct (fs w !! dst) as [[?|]|].
Qed.

(** The matched files of a source tree that the destination is not part
    of are no entries of the destination. *)
Lemma sources_outside (fnmatch : string → string → bool) (order : Scandir)
    (pattern : string) (m : gmap Path node) (src dst : Path) :
  ¬ src `prefix_of` dst →
  Forall (λ p, ¬ entry_of dst p)
    (sources (matched fnmatch pattern (snapshot order m src))).
Proof.
  intros Hout. apply Forall_forall.
  intros p (root & fns & name & Hin & -> & _)%sources_matched [name' Heq].
  apply joinpath_eq in Heq as [-> _].
  by apply walk_list_entry in Hin as (? & _).
Qed.

(** A transfer into what is not a directory fails. *)
Lemma commit_not_directory (move : bool) (src dst : Path) (name : string)
    (m : gmap Path node) :
  m !! dst ≠ Some Directory → ∃ e, commit move src (joinpath dst name) m = inl e.
Proof.
  intros H. unfold commit. rewrite parent_joinpath.
  destruct (m !! src) as [[?|]|]; [|eauto..].
  destruct (m !! dst) as [[?|]|]; [eauto|done|eauto].
Qed.

(** C6.  A failure is not recovered.  Whatever the source and the
    destination are: when the destination is not a directory, a run that
    comes to a file raises on the first one the library's exception for
    its destination path, [FileNotFoundError] when the destination is
    missing and [NotADirectoryError] when it is a file, and has
    transferred nothing: the line of that file is printed, the file
    system is as before, and no file after it is looked at.  With the
    destination outside the source tree that file is the first matched
    file of the tree.  An existing candidate is no failure: when the
    destination is a directory the run returns the number of matched
    files, and for the first of them every candidate before the one it is
    placed at exists, makes [copyfile] return [False] without a trace,
    and is after the run what it was before. *)
Theorem failure_aborts_run (fnmatch : string → string → bool)
    (order : Scandir) (pattern : string) (src dst : Path)
    (move quiet : bool) (w : world) :
  let r := rcopy fnmatch order pattern src dst move quiet false w in
  let files := matched fnmatch pattern (snapshot order (fs w) src) in
  (fs w !! dst ≠ Some Directory →
   r = (Return 0, w)
   ∨ ∃ root name,
       src `prefix_of` root ∧ fnmatch name pattern = true
       ∧ is_file (fs w) (joinpath root name)
       ∧ let dst_path := free_path (fs w) dst name in
         r = (Raise (match fs w !! dst with
                     | None => FileNotFoundError dst_path
                     | Some _ => NotADirectoryError dst_path
                     end),
              World (fs w)
                (stdout w ++ report quiet move (joinpath root name) dst_path)))
  ∧ ∀ root name rest,
      ¬ src `prefix_of` dst →
      files = (root, name) :: rest →
      let source := joinpath root name in
      let k := first_free (fs w) dst name in
      let dst_path := joinpath dst (candidate name (Z.of_nat k)) in
      let failed := World (fs w) (stdout w ++ report quiet move source dst_path) in
      (fs w !! dst = None → r = (Raise (FileNotFoundError dst_path), failed))
      ∧ (∀ c, fs w !! dst = Some (File c) →
              r = (Raise (NotADirectoryError dst_path), failed))
      ∧ (fs w !! dst = Some Directory →
         r.1 = Return (Z.of_nat (S (length rest)))
         ∧ Forall (λ c, is_Some (fs w !! joinpath dst c)
                        ∧ copyfile source (joinpath dst c) move quiet false w
                          = (Return false, w)
                        ∧ fs r.2 !! joinpath dst c = fs w !! joinpath dst c)
             (islice k (filenames_with_index name None))
         ∧ ∃ content,
             fs w !! source = Some (File content)
             ∧ fs r.2 !! dst_path = Some (File content)).
Proof.
  intros r files. split.
  - intros Hdst. unfold r.
    destruct (rcopy_regular fnmatch order pattern src dst move quiet false w)
      as (handled & Hall & -> & Hreg).
    destruct handled as [|[root name] rest]; [by left|right].
    cbn [regular_when_handled] in Hreg. destruct Hreg as [Hfile _].
    apply Forall_cons in Hall as [[Hpre Hm] _]. cbn [fst snd] in *.
    exists root, name. split_and!; [done..|].
    by apply for_matched_regular_fails.
  - intros root name rest Hout Hfiles source k dst_path failed.
    assert (Hr : r = for_matched ((root, name) :: rest) dst move quiet false 0 w).
    { unfold r. rewrite rcopy_outside by done. fold files. by rewrite Hfiles. }
    destruct (snapshot_sources fnmatch order pattern (fs w) src)
      as (Hsrc & Hnd & _).
    pose proof (sources_outside fnmatch order pattern (fs w) src dst Hout)
      as Hnot.
    fold files in Hsrc, Hnd, Hnot. rewrite Hfiles in Hsrc, Hnd, Hnot.
    assert (Hfile : is_file (fs w) source).
    { unfold sources in Hsrc. rewrite fmap_cons in Hsrc.
      by apply Forall_cons in Hsrc as [? _]. }
    unfold is_file in Hfile.
    destruct (fs w !! source) as [[content|]|] eqn:Es; [|done..].
    assert (Hstep : r = match fs w !! dst with
                        | Some Directory =>
                            for_matched rest dst move quiet false (0 + 1)
                              (World (<[dst_path := File content]>
                                        (if move then delete source (fs w)
                                         else fs w))
                                 (stdout w ++ report quiet move source dst_path))
                        | Some (File _) =>
                            (Raise (NotADirectoryError dst_path), failed)
                        | None => (Raise (FileNotFoundError dst_path), failed)
                        end).
    { rewrite Hr. cbn [for_matched]. rewrite bind_unfold, transfer_real.
      fold source. change (free_path (fs w) dst name) with dst_path.
      unfold commit. rewrite Es.
      replace (parent dst_path) with dst by (symmetry; apply parent_joinpath).
      by destruct (fs w !! dst) as [[?|]|]. }
    split_and!.
    + intros Hd. by rewrite Hstep, Hd.
    + intros c Hd. by rewrite Hstep, Hd.
    + intros Hd.
      destruct (first_free_spec (fs w) dst name) as (_ & Hb & Hfree).
      fold k in Hb, Hfree. fold dst_path in Hfree.
      assert (Hkeep : ∀ p n, entry_of dst p → fs w !! p = Some n →
                             fs r.2 !! p = Some n).
      { intros p n Hp Hn. rewrite Hr.
        destruct (for_matched_preserves ((root, name) :: rest) dst move quiet
                    0 w p n Hn) as [?|[_ Hs]]; [done|].
        rewrite Forall_forall in Hnot. by destruct (Hnot _ Hs). }
      split_and!.
      * rewrite Hr. rewrite for_matched_real; [done|done|done|done].
      * change (filenames_with_index name None) with (gen_at name None 0).
        rewrite islice_gen_at by (by intros [|?] _).
        apply Forall_fmap, Forall_forall. intros j Hj%elem_of_seq.
        unfold compose. cbv beta.
        destruct (Hb j ltac:(lia)) as [n Hn].
        split; [by eexists|]. split; [apply copyfile_exists; by eexists|].
        rewrite Hn. apply Hkeep; [by eexists|done].
      * exists content. split; [done|]. rewrite Hstep, Hd.
        set (w1 := World _ _).
        destruct (for_matched_preserves rest dst move quiet (0 + 1) w1
                    dst_path (File content)) as [?|[_ Hs]]; [|done|].
        { cbn [w1 fs]. apply lookup_insert_eq. }
        rewrite Forall_forall in Hnot.
        destruct (Hnot dst_path); [|by eexists].
        unfold sources. rewrite fmap_cons. by apply list_elem_of_further.
Qed.

(** Without the destination directory the first transfer fails and the
    three files after it are not looked at; and into a destination that
    holds [a.txt] and [a(1).txt] the first [a.txt] goes as [a(2).txt]. *)
Lemma failure_aborts_run_witness :
  let order := ranked ["1"; "2"; "3"; "4"] in
  rcopy fnmatchcase order "*.txt" ["src"] ["nodest"] false false false
    scenario_world
  = (Raise (FileNotFoundError ["nodest"; "a.txt"]),
     World (fs scenario_world) ["Copy /src/1/a.txt -> /nodest/a.txt"])
  ∧ let r := rcopy fnmatchcase order "*.txt" ["src"] ["dest"]
               true false false populated_world in
    r.1 = Return 4
    ∧ Forall (λ c, is_Some (fs populated_world !! joinpath ["dest"] c)
                   ∧ copyfile ["src"; "1"; "a.txt"] (joinpath ["dest"] c)
                       true false false populated_world
                     = (Return false, populated_world)
                   ∧ fs r.2 !! joinpath ["dest"] c
                     = fs populated_world !! joinpath ["dest"] c)
        ["a.txt"; "a(1).txt"]
    ∧ ∃ content,
        fs populated_world !! ["src"; "1"; "a.txt"] = Some (File content)
        ∧ fs r.2 !! ["dest"; "a(2).txt"] = Some (File content).
Proof.
  split.
  - apply (proj2 (failure_aborts_run fnmatchcase (ranked ["1"; "2"; "3"; "4"])
                    "*.txt" ["src"] ["nodest"] false false scenario_world)
             ["src"; "1"] "a.txt"
             [(["src"; "2"], "b.txt"); (["src"; "3"], "a.txt");
              (["src"; "4"; "1"], "c.txt")]).
    + apply (bool_decide_unpack _). vm_compute. exact I.
    + vm_compute. reflexivity.
    + reflexivity.
  - apply (proj2 (failure_aborts_run fnmatchcase (ranked ["1"; "2"; "3"; "4"])
                    "*.txt" ["src"] ["dest"] true false populated_world)
             ["src"; "1"] "a.txt"
             [(["src"; "2"], "b.txt"); (["src"; "3"], "a.txt");
              (["src"; "4"; "1"], "c.txt")]).
    + apply (bool_decide_unpack _). vm_compute. exact I.
    + vm_compute. reflexivity.
    + reflexivity.
Defined.

(** A transfer into a directory that does not exist fails. *)
Lemma commit_missing_directory (move : bool) (src dst : Path) (name : string)
    (m : gmap Path node) :
  m !! dst = None → ∃ e, commit move src (joinpath dst name) m = inl e.
Proof.
  intros H. unfold commit. rewrite parent_joinpath, H.
  destruct (m !! src) as [[?|]|]; eauto.
Qed.

(** C3, as amended.  A run that is not a dry run replaces no file: what
    exists before the run exists after it with the same contents, unless
    the run moves it, being one of the matched files below the source
    directory itself; and every file the run places gets a path in the
    destination at which nothing exists at that moment, with the bytes of
    its source. *)
Theorem rcopy_never_overwrites (fnmatch : string → string → bool)
    (order : Scandir) (pattern : string) (src dst : Path)
    (move quiet : bool) (w : world) (p : Path) (n : node)
    (root : Path) (filename : string) (count : Z) (w1 : world) :
  fs w !! p = Some n →
  let after := (rcopy fnmatch order pattern src dst move quiet false w).2 in
  let source := joinpath root filename in
  let dst_path := free_path (fs w1) dst filename in
  let placed := (transfer root filename dst move quiet false count w1).2 in
  (fs after !! p = Some n
   ∨ (move = true
      ∧ ∃ dir name, p = joinpath dir name ∧ src `prefix_of` dir
                    ∧ fnmatch name pattern = true))
  ∧ fs w1 !! dst_path = None
  ∧ entry_of dst dst_path
  ∧ (fs placed = fs w1
     ∨ ∃ content, fs w1 !! source = Some (File content)
         ∧ fs placed = <[dst_path := File content]>
                         (if move then delete source (fs w1) else fs w1)).
Proof.
  intros Hp after source dst_path placed. split_and!.
  - unfold after.
    destruct (rcopy_walked fnmatch order pattern src dst move quiet false w)
      as (walked & Hpre & ->).
    destruct (for_matched_preserves (matched fnmatch pattern walked)
                dst move quiet 0 w p n Hp) as [?|[? Hs]]; [by left|right].
    split; [done|].
    apply sources_matched in Hs as (dir & fns & name & Hin & -> & _ & Hm).
    exists dir, name. split_and!; [done| |done].
    rewrite Forall_forall in Hpre. apply (Hpre _ Hin).
  - apply free_path_free.
  - by eexists.
  - unfold placed. rewrite transfer_real. fold source dst_path.
    unfold commit. destruct (fs w1 !! source) as [[content|]|]; [|by left..].
    destruct (fs w1 !! parent dst_path) as [[?|]|]; [by left| |by left].
    right. by exists content.
Qed.

Lemma rcopy_never_overwrites_witness :
  let w := scenario_world in
  let p := ["src"; "1"; "a.txt"] in
  let after := (rcopy fnmatchcase (ranked []) "*.txt" ["src"] ["dest"]
                  false false false w).2 in
  let source := joinpath ["src"; "3"] "a.txt" in
  let dst_path := free_path (fs w) ["dest"] "a.txt" in
  let placed := (transfer ["src"; "3"] "a.txt" ["dest"] false false false 0 w).2 in
  (fs after !! p = Some (File "one")
   ∨ (false = true
      ∧ ∃ dir name, p = joinpath dir name ∧ ["src"] `prefix_of` dir
                    ∧ fnmatchcase name "*.txt" = true))
  ∧ fs w !! dst_path = None
  ∧ entry_of ["dest"] dst_path
  ∧ (fs placed = fs w
     ∨ ∃ content, fs w !! source = Some (File content)
         ∧ fs placed = <[dst_path := File content]> (fs w)).
Proof.
  apply (rcopy_never_overwrites fnmatchcase (ranked []) "*.txt"
           ["src"] ["dest"] false false scenario_world
           ["src"; "1"; "a.txt"] (File "one") ["src"; "3"] "a.txt" 0
           scenario_world).
  reflexivity.
Defined.

(** C3 as it is stated fails when the destination is the directory the
    files are moved from: [/d/a(1).txt] holds ["X"] before the run and
    ["Y"] after it.  The run moved it to [/d/a(1)(1).txt] and then moved
    [/d/a.txt] to its name, which was free by then. *)
Lemma rcopy_move_in_place :
  let w := in_place_world in
  let r := rcopy fnmatchcase (ranked ["a(1).txt"; "a.txt"]) "*.txt"
             ["d"] ["d"] true false false w in
  fs w !! ["d"; "a(1).txt"] = Some (File "X")
  ∧ r.1 = Return 2
  ∧ fs r.2 !! ["d"; "a(1).txt"] = Some (File "Y")
  ∧ fs r.2 !! ["d"; "a(1)(1).txt"] = Some (File "X")
  ∧ fs r.2 !! ["d"; "a.txt"] = None
  ∧ fs r.2 !! ["d"; "a(1).txt"] ≠ fs w !! ["d"; "a(1).txt"].
Proof. vm_compute. split_and!; [reflexivity..|discriminate]. Qed.

(** C4, as amended.  A dry run returns the number of matched files below
    the source directory and changes nothing in the file system, whatever
    the destination is and whatever is in it.  The run that is not dry
    returns the same number on every file system with the same source
    tree in which the destination is a directory that is not the source
    directory and does not lie below it. *)
Theorem dry_run_invariant (fnmatch : string → string → bool)
    (order : Scandir) (pattern : string) (src dst : Path)
    (move quiet : bool) (w : world) :
  let files := matched fnmatch pattern (snapshot order (fs w) src) in
  let dry := rcopy fnmatch order pattern src dst move quiet true w in
  dry.1 = Return (Z.of_nat (length files))
  ∧ fs dry.2 = fs w
  ∧ ∀ w0,
      ¬ src `prefix_of` dst →
      fs w0 !! dst = Some Directory →
      (∀ x, src `prefix_of` x → fs w0 !! x = fs w !! x) →
      (rcopy fnmatch order pattern src dst move quiet false w0).1 = dry.1.
Proof.
  intros files dry. unfold dry.
  rewrite rcopy_dryrun, for_matched_dryrun.
  cbn [fst snd fs]. split_and!; [done|done|].
  intros w0 Hout Hdst Hsame. rewrite rcopy_outside by done.
  assert (Hsnap : snapshot order (fs w0) src = snapshot order (fs w) src).
  { unfold snapshot, walk_fuel.
    apply walk_list_agree; [apply deep_enough_walk_fuel..|done]. }
  rewrite Hsnap. fold files.
  destruct (snapshot_sources fnmatch order pattern (fs w0) src)
    as (Hfiles & Hnd & _).
  rewrite Hsnap in Hfiles, Hnd. by rewrite for_matched_real.
Qed.

(** The scenario, moving: the dry run and the run that is not dry return
    4; and the dry run into the source directory itself returns 4 and
    changes nothing. *)
Lemma dry_run_invariant_witness :
  let order := ranked ["1"; "2"; "3"; "4"] in
  let dry := rcopy fnmatchcase order "*.txt" ["src"] ["dest"]
               true false true scenario_world in
  let real := rcopy fnmatchcase order "*.txt" ["src"] ["dest"]
                true false false scenario_world in
  let nested := rcopy fnmatchcase order "*.txt" ["src"] ["src"]
                  true false true scenario_world in
  dry.1 = Return 4
  ∧ fs dry.2 = fs scenario_world
  ∧ real.1 = dry.1
  ∧ nested.1 = Return 4
  ∧ fs nested.2 = fs scenario_world.
Proof.
  pose proof (dry_run_invariant fnmatchcase (ranked ["1"; "2"; "3"; "4"])
                "*.txt" ["src"] ["dest"] true false scenario_world) as H.
  pose proof (dry_run_invariant fnmatchcase (ranked ["1"; "2"; "3"; "4"])
                "*.txt" ["src"] ["src"] true false scenario_world) as H'.
  cbv zeta in H, H'. destruct H as (H1 & H2 & H3), H' as (H1' & H2' & _).
  split_and!; [exact H1|exact H2| |exact H1'|exact H2'].
  apply (H3 scenario_world).
  - apply (bool_decide_unpack _). vm_compute. exact I.
  - reflexivity.
  - reflexivity.
Defined.

(** C4 as it is stated fails when the destination lies in the source
    tree and is listed after a directory with a matched file: the walk of
    the run that is not dry finds in [/s/out] the copy of [/s/1/a.txt] it
    has just placed there, and the run copies it again. *)
Lemma dry_run_nested_destination :
  let order := ranked ["1"; "out"] in
  let dry := rcopy fnmatchcase order "*.txt" ["s"] ["s"; "out"]
               false false true nested_world in
  let real := rcopy fnmatchcase order "*.txt" ["s"] ["s"; "out"]
                false false false nested_world in
  children (fs nested_world) ["s"; "out"] = ∅
  ∧ dry.1 = Return 1
  ∧ real.1 = Return 2
  ∧ stdout real.2 = ["Copy /s/1/a.txt -> /s/out/a.txt";
                     "Copy /s/out/a.txt -> /s/out/a(1).txt"]
  ∧ real.1 ≠ dry.1.
Proof. vm_compute. split_and!; [reflexivity..|discriminate]. Qed.

Lemma free_path_empty (m : gmap Path node) (dst : Path) (name : string) :
  children m dst = ∅ → free_path m dst name = joinpath dst name.
Proof.
  intros H. unfold free_path.
  destruct (first_free_spec m dst name) as (_ & Hb & _).
  destruct (first_free m dst name) as [|k]; [by rewrite candidate_0|].
  destruct (Hb 0%nat ltac:(lia)) as [? Hs].
  by rewrite <- lookup_children, H in Hs.
Qed.

(** C9.  In a dry run into a directory without entries every matched file
    is counted and reported under its own name, the candidate of index 0:
    nothing is written, so no name is ever taken.  In the scenario both
    [a.txt] are reported as [/dest/a.txt], where the run that is not dry
    reports the second as [/dest/a(1).txt]. *)
Theorem dry_run_unsuffixed (fnmatch : string → string → bool)
    (order : Scandir) (pattern : string) (src dst : Path)
    (move quiet : bool) (w : world) :
  children (fs w) dst = ∅ →
  let files := matched fnmatch pattern (snapshot order (fs w) src) in
  let scenario dryrun :=
    rcopy fnmatchcase (ranked ["1"; "2"; "3"; "4"]) "*.txt" ["src"] ["dest"]
      false false dryrun scenario_world in
  rcopy fnmatch order pattern src dst move quiet true w
  = (Return (Z.of_nat (length files)),
     World (fs w)
       (stdout w
        ++ flat_map (λ rf, report quiet move (joinpath rf.1 rf.2)
                             (joinpath dst (candidate rf.2 0))) files))
  ∧ Forall (λ rf, candidate rf.2 0 = rf.2) files
  ∧ stdout (scenario true).2
    = ["Copy /src/1/a.txt -> /dest/a.txt";
       "Copy /src/2/b.txt -> /dest/b.txt";
       "Copy /src/3/a.txt -> /dest/a.txt";
       "Copy /src/4/1/c.txt -> /dest/c.txt"]
  ∧ stdout (scenario false).2
    = ["Copy /src/1/a.txt -> /dest/a.txt";
       "Copy /src/2/b.txt -> /dest/b.txt";
       "Copy /src/3/a.txt -> /dest/a(1).txt";
       "Copy /src/4/1/c.txt -> /dest/c.txt"].
Proof.
  intros Hempty files scenario. split_and!.
  - rewrite rcopy_dryrun, for_matched_dryrun. do 3 f_equal.
    unfold dry_report. fold files. induction files as [|rf rest IH]; [done|].
    cbn [flat_map]. rewrite IH, candidate_0.
    by rewrite free_path_empty.
  - apply Forall_forall. intros rf _. apply candidate_0.
  - vm_compute. reflexivity.
  - vm_compute. reflexivity.
Qed.

Lemma dry_run_unsuffixed_witness :
  (rcopy fnmatchcase (ranked ["1"; "2"; "3"; "4"]) "*.txt" ["src"] ["dest"]
     true false true scenario_world).1
  = Return 4.
Proof.
  pose proof (dry_run_unsuffixed fnmatchcase (ranked ["1"; "2"; "3"; "4"])
                "*.txt" ["src"] ["dest"] true false scenario_world) as H.
  cbv zeta in H. destruct H as [-> _]; reflexivity.
Defined.

(** C2.  The scenario, in whatever order [/src] lists its four
    directories: the run returns 4 and the destination, empty before,
    holds exactly [a.txt], [b.txt], [a(1).txt] and [c.txt] after; the two
    [a.txt] of the source are [a.txt] and [a(1).txt], the first one
    walked being [a.txt]. *)
Theorem scenario_collect (ranking : list string) (quiet : bool) :
  ranking ≡ₚ ["1"; "2"; "3"; "4"] →
  let r := rcopy fnmatchcase (ranked ranking) "*.txt" ["src"] ["dest"]
             false quiet false scenario_world in
  let dest := children (fs r.2) ["dest"] in
  children (fs scenario_world) ["dest"] = ∅
  ∧ r.1 = Return 4
  ∧ dom dest = list_to_set ["a.txt"; "b.txt"; "a(1).txt"; "c.txt"]
  ∧ dest !! "b.txt" = Some (File "two")
  ∧ dest !! "c.txt" = Some (File "four")
  ∧ ((dest !! "a.txt" = Some (File "one")
      ∧ dest !! "a(1).txt" = Some (File "three"))
     ∨ (dest !! "a.txt" = Some (File "three")
        ∧ dest !! "a(1).txt" = Some (File "one"))).
Proof.
  intros Hp. symmetry in Hp. apply permutations_Permutation in Hp.
  cbv zeta. revert ranking Hp.
  apply (proj1 (Forall_forall _ (permutations ["1"; "2"; "3"; "4"]))).
  destruct quiet; apply (bool_decide_unpack _); vm_compute; exact I.
Qed.

Lemma scenario_collect_witness :
  (rcopy fnmatchcase (ranked ["1"; "2"; "3"; "4"]) "*.txt" ["src"] ["dest"]
     false false false scenario_world).1
  = Return 4.
Proof.
  destruct (scenario_collect ["1"; "2"; "3"; "4"] false) as (_ & Hc & _);
    [reflexivity|exact Hc].
Defined.

(** * Further properties of the code *)

(** ** [copyfile] *)

Lemma perform_dryrun (src dst : Path) (move quiet : bool) (w : world) :
  perform src dst move quiet true w
  = (Return tt, World (fs w) (stdout w ++ report quiet move src dst)).
Proof. unfold perform. by rewrite bind_unfold, print_when. Qed.

Lemma perform_real (src dst : Path) (move quiet : bool) (w : world) :
  fs w !! dst = None →
  perform src dst move quiet false w
  = match commit move src dst (fs w) with
    | inl e => (Raise e, World (fs w) (stdout w ++ report quiet move src dst))
    | inr m' => (Return tt, World m' (stdout w ++ report quiet move src dst))
    end.
Proof.
  intros Hd. unfold perform. rewrite bind_unfold, print_when.
  cbn [negb when]. destruct move.
  - rewrite shutil_move_free by done. cbn [fs stdout].
    by destruct (commit true src dst (fs w)).
  - rewrite shutil_copyfile_free by done. cbn [fs stdout].
    by destruct (commit false src dst (fs w)).
Qed.

(** [copyfile] in full, but for the move of a directory.  When the
    destination exists it returns [False] and does nothing, not even
    print.  When it does not, the line is printed first, unless [quiet];
    then a dry run returns [True] without looking at the source, and a
    run that is not dry makes the library call, which either fails, the
    file system unchanged and the line printed all the same, or places
    the file.  The library call fails when the source is missing, when
    it is a directory that is to be copied, and when the directory of
    the destination is missing or is a file. *)
Theorem copyfile_effects (src dst : Path) (move quiet dryrun : bool)
    (w : world) :
  (move = true → dryrun = false → fs w !! src ≠ Some Directory) →
  let r := copyfile src dst move quiet dryrun w in
  match fs w !! dst with
  | Some _ => r = (Return false, w)
  | None =>
      stdout r.2 = stdout w ++ report quiet move src dst
      ∧ if dryrun then r.1 = Return true ∧ fs r.2 = fs w
        else match fs w !! src, fs w !! parent dst with
             | None, _ => r.1 = Raise (FileNotFoundError src) ∧ fs r.2 = fs w
             | Some Directory, _ =>
                 r.1 = Raise (IsADirectoryError src) ∧ fs r.2 = fs w
             | Some (File _), None =>
                 r.1 = Raise (FileNotFoundError dst) ∧ fs r.2 = fs w
             | Some (File _), Some (File _) =>
                 r.1 = Raise (NotADirectoryError dst) ∧ fs r.2 = fs w
             | Some (File content), Some Directory =>
                 r.1 = Return true
                 ∧ fs r.2 = <[dst := File content]>
                              (if move then delete src (fs w) else fs w)
             end
  end.
Proof.
  intros Hdir r. unfold r. destruct (fs w !! dst) as [n|] eqn:Hd.
  - by apply copyfile_exists.
  - rewrite copyfile_free by done. rewrite bind_unfold. destruct dryrun.
    + by rewrite perform_dryrun.
    + rewrite perform_real by done. unfold commit.
      destruct (fs w !! src) as [[content|]|]; [|done..].
      by destruct (fs w !! parent dst) as [[?|]|].
Qed.

Lemma copyfile_effects_witness :
  let w := populated_world in
  copyfile ["src"; "1"; "a.txt"] ["dest"; "a.txt"] true false false w
  = (Return false, w)
  ∧ let r := copyfile ["src"; "1"; "a.txt"] ["dest"; "a(2).txt"]
               true false false w in
    stdout r.2 = ["Move /src/1/a.txt -> /dest/a(2).txt"]
    ∧ r.1 = Return true
    ∧ fs r.2 = <[["dest"; "a(2).txt"] := File "one"]>
                 (delete ["src"; "1"; "a.txt"] (fs w)).
Proof.
  split.
  - apply (copyfile_effects ["src"; "1"; "a.txt"] ["dest"; "a.txt"]
             true false false populated_world).
    intros _ _. apply (bool_decide_unpack _). vm_compute. exact I.
  - apply (copyfile_effects ["src"; "1"; "a.txt"] ["dest"; "a(2).txt"]
             true false false populated_world).
    intros _ _. apply (bool_decide_unpack _). vm_compute. exact I.
Defined.

(** A transfer that can be made is made: the bytes of the source are at
    the destination after it, the source is gone when it was moved and
    untouched when it was copied, and every other path is as before. *)
Theorem copyfile_transfers (src dst : Path) (move quiet : bool) (w : world)
    (content : string) :
  fs w !! src = Some (File content) →
  fs w !! dst = None →
  fs w !! parent dst = Some Directory →
  let r := copyfile src dst move quiet false w in
  r.1 = Return true
  ∧ fs r.2 !! dst = Some (File content)
  ∧ fs r.2 !! src = (if move then None else Some (File content))
  ∧ ∀ x, x ≠ dst → x ≠ src → fs r.2 !! x = fs w !! x.
Proof.
  intros Hs Hd Hp r. unfold r.
  rewrite copyfile_free, bind_unfold, perform_real by done.
  unfold commit. rewrite Hs, Hp. unfold ret. cbn [fst snd fs].
  assert (src ≠ dst) by congruence.
  split_and!; [done|by rewrite lookup_insert_eq| |].
  - rewrite lookup_insert_ne by done. destruct move; [|done].
    by rewrite lookup_delete_eq.
  - intros x Hx1 Hx2. rewrite lookup_insert_ne by done.
    destruct move; [|done]. by rewrite lookup_delete_ne.
Qed.

Lemma copyfile_transfers_witness :
  let w := scenario_world in
  let r := copyfile ["src"; "1"; "a.txt"] ["dest"; "a.txt"] true false false w in
  r.1 = Return true
  ∧ fs r.2 !! ["dest"; "a.txt"] = Some (File "one")
  ∧ fs r.2 !! ["src"; "1"; "a.txt"] = None
  ∧ ∀ x, x ≠ ["dest"; "a.txt"] → x ≠ ["src"; "1"; "a.txt"] →
         fs r.2 !! x = fs w !! x.
Proof.
  apply (copyfile_transfers ["src"; "1"; "a.txt"] ["dest"; "a.txt"] true false
           scenario_world "one"); reflexivity.
Defined.

(** ** What a run prints *)

Lemma transfer_cases (root : Path) (filename : string) (dst : Path)
    (move quiet dryrun : bool) (count : Z) (w : world) :
  ∃ out m1,
    transfer root filename dst move quiet dryrun count w
    = (out, World m1 (stdout w ++ report quiet move (joinpath root filename)
                                    (free_path (fs w) dst filename)))
    ∧ (out = Return (count + 1) ∨ ∃ e, out = Raise e ∧ m1 = fs w).
Proof.
  destruct dryrun.
  - rewrite transfer_dryrun. eexists _, _. split; [done|by left].
  - rewrite transfer_real. destruct (commit _ _ _ _) as [e|m'].
    + eexists _, _. split; [done|right; by exists e].
    + eexists _, _. split; [done|by left].
Qed.

Lemma for_matched_output (files : list (Path * string)) (dst : Path)
    (move quiet dryrun : bool) (count : Z) (w : world) :
  let r := for_matched files dst move quiet dryrun count w in
  ∃ lines,
    stdout r.2 = stdout w ++ lines
    ∧ Forall (λ line, ∃ src name, line = transfer_line move src (joinpath dst name))
        lines
    ∧ if quiet then lines = []
      else match r.1 with
           | Return n => Z.of_nat (length lines) = n - count
           | Raise _ => lines ≠ []
           | OutOfFuel => False
           end.
Proof.
  revert count w. induction files as [|[root filename] rest IH]; intros count w.
  - exists []. cbn. rewrite app_nil_r. split_and!; [done|done|].
    destruct quiet; [done|lia].
  - cbn [for_matched]. rewrite bind_unfold.
    destruct (transfer_cases root filename dst move quiet dryrun count w)
      as (out & m1 & -> & Hout).
    assert (Hrep : Forall (λ line, ∃ src name,
                      line = transfer_line move src (joinpath dst name))
                     (report quiet move (joinpath root filename)
                        (free_path (fs w) dst filename))).
    { unfold report. destruct quiet; [done|]. apply Forall_singleton.
      by eexists _, _. }
    destruct Hout as [->|(e & -> & _)].
    + destruct (IH (count + 1) (World m1 (stdout w ++ report quiet move
        (joinpath root filename) (free_path (fs w) dst filename))))
        as (lines & Hl & Hf & Hq).
      cbn [stdout] in Hl.
      exists (report quiet move (joinpath root filename)
                (free_path (fs w) dst filename) ++ lines).
      split_and!; [by rewrite Hl, app_assoc|by apply Forall_app|].
      unfold report in *. destruct quiet; [done|].
      destruct (for_matched rest _ _ _ _ _ _).1; [|done..].
      rewrite length_app. cbn. lia.
    + exists (report quiet move (joinpath root filename)
                (free_path (fs w) dst filename)).
      split_and!; [done|done|]. unfold report. by destruct quiet.
Qed.

(** With [quiet] a run prints nothing, whatever it does and however it
    ends. *)
Theorem rcopy_quiet_silent (fnmatch : string → string → bool)
    (order : Scandir) (pattern : string) (src dst : Path)
    (move dryrun : bool) (w : world) :
  stdout (rcopy fnmatch order pattern src dst move true dryrun w).2
  = stdout w.
Proof.
  destruct (rcopy_walked fnmatch order pattern src dst move true dryrun w)
    as (walked & _ & ->).
  destruct (for_matched_output (matched fnmatch pattern walked) dst
              move true dryrun 0 w) as (lines & -> & _ & ->).
  by rewrite app_nil_r.
Qed.

(** Without [quiet] a run that returns has printed as many lines as it
    counts, each with the verb of its mode and a path in the destination
    directory; a run that raises has printed the line of the transfer
    that failed. *)
Theorem rcopy_reports_each (fnmatch : string → string → bool)
    (order : Scandir) (pattern : string) (src dst : Path)
    (move dryrun : bool) (w : world) :
  let r := rcopy fnmatch order pattern src dst move false dryrun w in
  ∃ lines,
    stdout r.2 = stdout w ++ lines
    ∧ Forall (λ line, ∃ source name,
                line = (if move then "Move " else "Copy ")
                       +:+ path_str source +:+ " -> "
                       +:+ path_str (joinpath dst name)) lines
    ∧ match r.1 with
      | Return n => Z.of_nat (length lines) = n
      | Raise _ => lines ≠ []
      | OutOfFuel => False
      end.
Proof.
  intros r. unfold r.
  destruct (rcopy_walked fnmatch order pattern src dst move false dryrun w)
    as (walked & _ & ->).
  destruct (for_matched_output (matched fnmatch pattern walked) dst
              move false dryrun 0 w) as (lines & Hl & Hf & Hn).
  exists lines. split_and!; [done|done|].
  destruct (for_matched _ _ _ _ _ _ _).1; [lia|done..].
Qed.

(** ** What a run changes *)

(** A run creates no directory and removes none: the directories it has
    emptied by moving stay. *)
Theorem rcopy_keeps_directories (fnmatch : string → string → bool)
    (order : Scandir) (pattern : string) (src dst : Path)
    (move quiet dryrun : bool) (w : world) (x : Path) :
  fs (rcopy fnmatch order pattern src dst move quiet dryrun w).2 !! x
  = Some Directory
  ↔ fs w !! x = Some Directory.
Proof.
  destruct (rcopy_walked fnmatch order pattern src dst move quiet dryrun w)
    as (walked & _ & ->).
  apply for_matched_directory.
Qed.

Lemma commit_size (move : bool) (src dst : Path) (m m' : gmap Path node) :
  m !! dst = None → commit move src dst m = inr m' →
  size m' = if move then size m else S (size m).
Proof.
  unfold commit. destruct (m !! src) as [[c|]|] eqn:Es; [|done..].
  destruct (m !! parent dst) as [[?|]|]; [done| |done].
  intros Hd [= <-]. destruct move.
  - rewrite map_size_insert_None
      by (rewrite lookup_delete_ne by congruence; done).
    rewrite <- (insert_delete_id m src (File c)) at 2 by done.
    by rewrite map_size_insert_None by apply lookup_delete_eq.
  - by rewrite map_size_insert_None.
Qed.

Lemma for_matched_size (files : list (Path * string)) (dst : Path)
    (move quiet dryrun : bool) (count : Z) (w : world) :
  let r := for_matched files dst move quiet dryrun count w in
  match r.1 with
  | Return n =>
      count ≤ n
      ∧ size (fs r.2)
        = (size (fs w)
           + if move || dryrun then 0 else Z.to_nat (n - count))%nat
  | _ => (size (fs w) ≤ size (fs r.2))%nat
  end.
Proof.
  destruct dryrun.
  { rewrite for_matched_dryrun. cbn [fst snd fs]. rewrite orb_true_r. lia. }
  rewrite orb_false_r.
  revert count w. induction files as [|[root filename] rest IH]; intros count w.
  - cbn. destruct move; lia.
  - cbn [for_matched]. rewrite bind_unfold, transfer_real.
    destruct (commit _ _ _ _) as [e|m'] eqn:Hc; [cbn; lia|].
    pose proof (commit_size _ _ _ _ _ (free_path_free _ _ _) Hc) as Hs.
    specialize (IH (count + 1) (World m' (stdout w ++ report quiet move
      (joinpath root filename) (free_path (fs w) dst filename)))).
    cbn [fs] in IH.
    destruct (for_matched rest _ _ _ _ _ _) as [[n|e|] w2]; cbn [fst snd] in *;
      destruct move; lia.
Qed.

(** The entries of the file system are counted by the result: when a run
    returns [n], the file system has [n] entries more than before if it
    copied, and as many as before if it moved or was a dry run; [n] is
    not negative. *)
Theorem rcopy_counts_entries (fnmatch : string → string → bool)
    (order : Scandir) (pattern : string) (src dst : Path)
    (move quiet dryrun : bool) (w : world) :
  let r := rcopy fnmatch order pattern src dst move quiet dryrun w in
  match r.1 with
  | Return n =>
      0 ≤ n
      ∧ size (fs r.2)
        = (size (fs w) + if move || dryrun then 0 else Z.to_nat n)%nat
  | Raise _ => (size (fs w) ≤ size (fs r.2))%nat
  | OutOfFuel => False
  end.
Proof.
  intros r. unfold r.
  pose proof (rcopy_total fnmatch order pattern src dst move quiet dryrun w)
    as Ht.
  destruct (rcopy_walked fnmatch order pattern src dst move quiet dryrun w)
    as (walked & _ & Heq).
  rewrite Heq in *.
  pose proof (for_matched_size (matched fnmatch pattern walked) dst
                move quiet dryrun 0 w) as Hs. cbv zeta in Hs.
  destruct (for_matched _ _ _ _ _ _ _).1; [|done..].
  by rewrite Z.sub_0_r in Hs.
Qed.

(** A run that copies leaves everything that exists as it is, also when
    the destination lies in the source tree and when it raises. *)
Theorem rcopy_copy_keeps_all (fnmatch : string → string → bool)
    (order : Scandir) (pattern : string) (src dst : Path)
    (quiet dryrun : bool) (w : world) :
  fs w ⊆ fs (rcopy fnmatch order pattern src dst false quiet dryrun w).2.
Proof.
  apply map_subseteq_spec. intros p n Hp.
  destruct (rcopy_walked fnmatch order pattern src dst false quiet dryrun w)
    as (walked & _ & ->).
  destruct dryrun; [by rewrite for_matched_dryrun|].
  by destruct (for_matched_preserves (matched fnmatch pattern walked)
                 dst false quiet 0 w p n Hp) as [?|[? _]].
Qed.

(** A source that is not a directory is walked without error and without
    effect: the run returns 0. *)
Theorem rcopy_source_not_directory (fnmatch : string → string → bool)
    (order : Scandir) (pattern : string) (src dst : Path)
    (move quiet dryrun : bool) (w : world) :
  fs w !! src ≠ Some Directory →
  rcopy fnmatch order pattern src dst move quiet dryrun w = (Return 0, w).
Proof.
  intros H. unfold rcopy, walk_fuel. cbn [walk_bottom_up]. unfold scan.
  by destruct (fs w !! src) as [[c|]|].
Qed.

Lemma rcopy_source_not_directory_witness :
  rcopy fnmatchcase (ranked []) "*.txt" ["src"; "1"; "a.txt"] ["dest"]
    false false false scenario_world
  = (Return 0, scenario_world)
  ∧ rcopy fnmatchcase (ranked []) "*.txt" ["missing"] ["dest"]
      false false false scenario_world
    = (Return 0, scenario_world).
Proof.
  split; apply rcopy_source_not_directory; vm_compute; discriminate.
Defined.

(** ** Runs into a destination outside the source tree *)

(** A run over regular files, each listed once and none of them an entry
    of the destination directory, places each of them. *)
Lemma for_matched_places (files : list (Path * string)) (dst : Path)
    (move quiet : bool) (count : Z) (w : world) :
  fs w !! dst = Some Directory →
  Forall (λ p, is_file (fs w) p) (sources files) →
  NoDup (sources files) →
  Forall (λ p, ¬ entry_of dst p) (sources files) →
  let r := for_matched files dst move quiet false count w in
  r.1 = Return (count + Z.of_nat (length files))
  ∧ Forall (λ rf, ∃ k content,
              fs w !! joinpath rf.1 rf.2 = Some (File content)
              ∧ fs r.2 !! joinpath dst (candidate rf.2 (Z.of_nat k))
                = Some (File content)
              ∧ fs r.2 !! joinpath rf.1 rf.2
                = if move then None else Some (File content)) files.
Proof.
  revert count w. induction files as [|[root filename] rest IH];
    intros count w Hdst Hsrc Hnd Hout r.
  - split; [|done]. unfold r. cbn. f_equal. lia.
  - unfold r. clear r. unfold sources in Hsrc, Hnd, Hout.
    rewrite fmap_cons in Hsrc, Hnd, Hout. cbn [fst snd] in *.
    apply Forall_cons in Hsrc as [Hfile Hrest].
    apply Forall_cons in Hout as [Hout0 Houtr].
    apply NoDup_cons in Hnd as [Hnot Hnd].
    fold (sources rest) in *.
    cbn [for_matched]. rewrite bind_unfold, transfer_real.
    pose proof (free_path_free (fs w) dst filename) as Hfree.
    set (source := joinpath root filename) in *.
    set (dst_path := free_path (fs w) dst filename) in *.
    assert (Hent : entry_of dst dst_path) by (by eexists).
    assert (Hne : source ≠ dst_path) by (by intros ->).
    unfold commit. unfold is_file in Hfile.
    destruct (fs w !! source) as [[content|]|] eqn:Hs; [|done..].
    replace (parent dst_path) with dst by (symmetry; apply parent_joinpath).
    rewrite Hdst.
    set (m1 := <[dst_path := File content]>
                 (if move then delete source (fs w) else fs w)).
    set (w1 := World m1 _).
    assert (Hother : ∀ p, p ≠ dst_path → p ≠ source → m1 !! p = fs w !! p).
    { intros p Hp1 Hp2. unfold m1. rewrite lookup_insert_ne by done.
      destruct move; [|done]. by rewrite lookup_delete_ne. }
    assert (Hrest_ne : ∀ p, p ∈ sources rest → p ≠ dst_path ∧ p ≠ source).
    { intros p Hp. split; [|by intros ->].
      intros ->. rewrite Forall_forall in Houtr. by apply (Houtr _ Hp). }
    destruct (IH (count + 1) w1) as [Hret Hall]; [| | | |].
    { cbn [w1 fs]. rewrite Hother; [done|congruence|congruence]. }
    { apply Forall_forall. intros p Hp. destruct (Hrest_ne p Hp).
      rewrite Forall_forall in Hrest. specialize (Hrest p Hp).
      unfold is_file in *. cbn [w1 fs]. by rewrite Hother. }
    { done. }
    { done. }
    split.
    + rewrite Hret. f_equal. cbn [length]. lia.
    + apply Forall_cons. split.
      * exists (first_free (fs w) dst filename), content. cbn [fst snd].
        fold source. fold (free_path (fs w) dst filename). fold dst_path.
        split_and!; [done| |].
        -- destruct (for_matched_preserves rest dst move quiet (count + 1) w1
                       dst_path (File content)) as [?|[_ Hin]]; [|done|].
           { cbn [w1 fs]. unfold m1. apply lookup_insert_eq. }
           rewrite Forall_forall in Houtr. by destruct (Houtr _ Hin).
        -- rewrite for_matched_frame; [|done..]. cbn [w1 fs]. unfold m1.
           rewrite lookup_insert_ne by done. destruct move; [|done].
           apply lookup_delete_eq.
      * rewrite Forall_forall in Hall. apply Forall_forall. intros rf Hrf.
        destruct (Hall rf Hrf) as (k & c & H1 & H2 & H3).
        exists k, c. split_and!; [|done|done].
        assert (Hin : joinpath rf.1 rf.2 ∈ sources rest).
        { apply list_elem_of_fmap. by exists rf. }
        destruct (Hrest_ne _ Hin). cbn [w1 fs] in H1. by rewrite Hother in H1.
Qed.


(** Every matched file arrives.  When the destination is a directory that
    is not the source directory and does not lie below it, the run
    returns the number of matched files; each of them is then in the
    destination with its bytes, under its name or under its name with an
    index, and at its place in the source tree it is gone when the run
    moved and untouched when it copied; and whatever is neither a matched
    file nor an entry of the destination is as before. *)
Theorem rcopy_places_every_file (fnmatch : string → string → bool)
    (order : Scandir) (pattern : string) (src dst : Path)
    (move quiet : bool) (w : world) :
  ¬ src `prefix_of` dst →
  fs w !! dst = Some Directory →
  let files := matched fnmatch pattern (snapshot order (fs w) src) in
  let r := rcopy fnmatch order pattern src dst move quiet false w in
  r.1 = Return (Z.of_nat (length files))
  ∧ Forall (λ rf, ∃ k content,
              fs w !! joinpath rf.1 rf.2 = Some (File content)
              ∧ fs r.2 !! joinpath dst (candidate rf.2 (Z.of_nat k))
                = Some (File content)
              ∧ fs r.2 !! joinpath rf.1 rf.2
                = if move then None else Some (File content)) files
  ∧ ∀ x, ¬ entry_of dst x → x ∉ sources files → fs r.2 !! x = fs w !! x.
Proof.
  intros Hout Hdst files r. unfold r. rewrite rcopy_outside by done.
  fold files.
  destruct (snapshot_sources fnmatch order pattern (fs w) src)
    as (Hfiles & Hnd & _). fold files in Hfiles, Hnd.
  destruct (for_matched_places files dst move quiet 0 w)
    as [Hret Hall]; [done|done|done|by apply sources_outside|].
  split_and!; [done|done|].
  intros x Hx1 Hx2. by apply for_matched_frame.
Qed.

Lemma rcopy_places_every_file_witness :
  let order := ranked ["1"; "2"; "3"; "4"] in
  let files := matched fnmatchcase "*.txt"
                 (snapshot order (fs scenario_world) ["src"]) in
  let r := rcopy fnmatchcase order "*.txt" ["src"] ["dest"]
             true false false scenario_world in
  r.1 = Return (Z.of_nat (length files))
  ∧ Forall (λ rf, ∃ k content,
              fs scenario_world !! joinpath rf.1 rf.2 = Some (File content)
              ∧ fs r.2 !! joinpath ["dest"] (candidate rf.2 (Z.of_nat k))
                = Some (File content)
              ∧ fs r.2 !! joinpath rf.1 rf.2 = None) files
  ∧ ∀ x, ¬ entry_of ["dest"] x → x ∉ sources files →
         fs r.2 !! x = fs scenario_world !! x.
Proof.
  apply (rcopy_places_every_file fnmatchcase (ranked ["1"; "2"; "3"; "4"])
           "*.txt" ["src"] ["dest"] true false scenario_world).
  - apply (bool_decide_unpack _). vm_compute. exact I.
  - reflexivity.
Defined.

Lemma snapshot_not_directory (order : Scandir) (m : gmap Path node)
    (src : Path) :
  m !! src ≠ Some Directory → snapshot order m src = [].
Proof.
  intros H. unfold snapshot, walk_fuel. cbn [walk_list]. unfold scan.
  by destruct (m !! src) as [[c|]|].
Qed.

(** Collecting again.  A second copying run into the same destination
    outside the source tree returns the same count as the first: the
    first has left the source tree as it was.  What the first run placed
    is still there, and the second has placed as many files again. *)
Theorem rcopy_copy_twice (fnmatch : string → string → bool)
    (order : Scandir) (pattern : string) (src dst : Path)
    (quiet : bool) (w : world) :
  ¬ src `prefix_of` dst →
  fs w !! dst = Some Directory →
  let files := matched fnmatch pattern (snapshot order (fs w) src) in
  let first := rcopy fnmatch order pattern src dst false quiet false w in
  let second :=
    rcopy fnmatch order pattern src dst false quiet false first.2 in
  first.1 = Return (Z.of_nat (length files))
  ∧ second.1 = Return (Z.of_nat (length files))
  ∧ fs first.2 ⊆ fs second.2
  ∧ size (fs second.2) = (size (fs w) + 2 * length files)%nat.
Proof.
  intros Hout Hdst files first second.
  assert (Hfirst : first = for_matched files dst false quiet false 0 w).
  { unfold first. by rewrite rcopy_outside. }
  destruct (snapshot_sources fnmatch order pattern (fs w) src)
    as (Hfiles & Hnd & _). fold files in Hfiles, Hnd.
  assert (H1 : first.1 = Return (Z.of_nat (length files))).
  { rewrite Hfirst. by rewrite for_matched_real. }
  assert (Hkeep : ∀ p n, fs w !! p = Some n → fs first.2 !! p = Some n).
  { intros p n Hp. rewrite Hfirst.
    by destruct (for_matched_preserves files dst false quiet 0 w p n Hp)
      as [?|[? _]]. }
  assert (Hsame : ∀ x, src `prefix_of` x → fs first.2 !! x = fs w !! x).
  { intros x Hx. destruct (fs w !! x) as [n|] eqn:E; [by apply Hkeep|].
    rewrite Hfirst.
    destruct (decide (fs w !! src = Some Directory)) as [Hsrc|Hsrc].
    - rewrite for_matched_frame; [done| |].
      + intros [name ->]. apply prefix_snoc in Hx as [Hx|Hx]; [done|].
        rewrite Hx in Hsrc. unfold joinpath in E. congruence.
      + intros Hin. rewrite Forall_forall in Hfiles.
        specialize (Hfiles x Hin). unfold is_file in Hfiles.
        by rewrite E in Hfiles.
    - unfold files. rewrite snapshot_not_directory by done. done. }
  assert (Hsnap : snapshot order (fs first.2) src = snapshot order (fs w) src).
  { unfold snapshot, walk_fuel.
    apply walk_list_agree; [apply deep_enough_walk_fuel..|done]. }
  assert (Hsecond : second
            = for_matched files dst false quiet false 0 first.2).
  { unfold second. rewrite rcopy_outside by done. by rewrite Hsnap. }
  assert (H2 : second.1 = Return (Z.of_nat (length files))).
  { rewrite Hsecond. rewrite for_matched_real; [done| | |done].
    - by apply Hkeep.
    - apply Forall_forall. intros p Hp. rewrite Forall_forall in Hfiles.
      specialize (Hfiles p Hp). unfold is_file in *.
      destruct (fs w !! p) as [[c|]|] eqn:E; [|done..].
      by rewrite (Hkeep _ _ E). }
  split_and!; [done|done| |].
  - apply map_subseteq_spec. intros p n Hp. rewrite Hsecond.
    by destruct (for_matched_preserves files dst false quiet 0 first.2 p n Hp)
      as [?|[? _]].
  - pose proof (for_matched_size files dst false quiet false 0 w) as S1.
    pose proof (for_matched_size files dst false quiet false 0 first.2) as S2.
    cbv zeta in S1, S2. rewrite <- Hfirst in S1. rewrite <- Hsecond in S2.
    rewrite H1 in S1. rewrite H2 in S2. cbn [orb] in S1, S2. lia.
Qed.

Lemma rcopy_copy_twice_witness :
  let order := ranked ["1"; "2"; "3"; "4"] in
  let files := matched fnmatchcase "*.txt"
                 (snapshot order (fs scenario_world) ["src"]) in
  let first := rcopy fnmatchcase order "*.txt" ["src"] ["dest"]
                 false false false scenario_world in
  let second := rcopy fnmatchcase order "*.txt" ["src"] ["dest"]
                  false false false first.2 in
  first.1 = Return (Z.of_nat (length files))
  ∧ second.1 = Return (Z.of_nat (length files))
  ∧ fs first.2 ⊆ fs second.2
  ∧ size (fs second.2) = (size (fs scenario_world) + 2 * length files)%nat.
Proof.
  apply (rcopy_copy_twice fnmatchcase (ranked ["1"; "2"; "3"; "4"])
           "*.txt" ["src"] ["dest"] false scenario_world).
  - apply (bool_decide_unpack _). vm_compute. exact I.
  - reflexivity.
Defined.

(** A destination that does not exist.  The dry run does not notice: it
    returns the number of matched files.  The run that is not dry prints
    the line of the first matched file, raises on its transfer and has
    transferred nothing. *)
Theorem rcopy_missing_destination (fnmatch : string → string → bool)
    (order : Scandir) (pattern : string) (src dst : Path)
    (move quiet : bool) (w : world) (root : Path) (name : string)
    (rest : list (Path * string)) :
  fs w !! dst = None →
  ¬ src `prefix_of` dst →
  matched fnmatch pattern (snapshot order (fs w) src) = (root, name) :: rest →
  let dst_path := free_path (fs w) dst name in
  (rcopy fnmatch order pattern src dst move quiet true w).1
  = Return (Z.of_nat (S (length rest)))
  ∧ rcopy fnmatch order pattern src dst move quiet false w
    = (Raise (FileNotFoundError dst_path),
       World (fs w)
         (stdout w ++ report quiet move (joinpath root name) dst_path)).
Proof.
  intros Hdst Hout Hfiles dst_path. split.
  - by rewrite rcopy_dryrun, for_matched_dryrun, Hfiles.
  - rewrite rcopy_outside by done.
    destruct (snapshot_sources fnmatch order pattern (fs w) src)
      as (Hsrc & _). rewrite Hfiles in *.
    unfold sources in Hsrc. rewrite fmap_cons in Hsrc.
    apply Forall_cons in Hsrc as [Hfile _]. cbn [fst snd] in Hfile.
    cbn [for_matched]. rewrite bind_unfold, transfer_real.
    fold dst_path. unfold commit. unfold is_file in Hfile.
    destruct (fs w !! joinpath root name) as [[c|]|]; [|done..].
    unfold dst_path at 1, free_path. by rewrite parent_joinpath, Hdst.
Qed.

Lemma rcopy_missing_destination_witness :
  let order := ranked ["1"; "2"; "3"; "4"] in
  (rcopy fnmatchcase order "*.txt" ["src"] ["nodest"] true false true
     scenario_world).1
  = Return 4
  ∧ rcopy fnmatchcase order "*.txt" ["src"] ["nodest"] true false false
      scenario_world
    = (Raise (FileNotFoundError ["nodest"; "a.txt"]),
       World (fs scenario_world) ["Move /src/1/a.txt -> /nodest/a.txt"]).
Proof.
  apply (rcopy_missing_destination fnmatchcase (ranked ["1"; "2"; "3"; "4"])
           "*.txt" ["src"] ["nodest"] true false scenario_world
           ["src"; "1"] "a.txt"
           [(["src"; "2"], "b.txt"); (["src"; "3"], "a.txt");
            (["src"; "4"; "1"], "c.txt")]).
  - reflexivity.
  - apply (bool_decide_unpack _). vm_compute. exact I.
  - vm_compute. reflexivity.
Defined.

(** ** What the walk comes to *)

Lemma dirs_down_top (m : gmap Path node) (top : Path) (below : list string) :
  dirs_down m top below = true → m !! top = Some Directory.
Proof.
  destruct below; cbn [dirs_down]; intros [H _]%andb_true_iff;
    by apply bool_decide_eq_true in H.
Qed.

Lemma dirs_down_agree (m m' : gmap Path node) (top : Path)
    (below : list string) :
  (∀ q, m !! q = Some Directory ↔ m' !! q = Some Directory) →
  dirs_down m top below = dirs_down m' top below.
Proof.
  intros Hag. revert top. induction below as [|d below IH]; intros top;
    cbn [dirs_down]; [|rewrite IH]; f_equal; by apply bool_decide_ext.
Qed.

Lemma walk_list_way (order : Scandir) (fuel : nat) (m : gmap Path node)
    (top root : Path) (filenames : list string) :
  (root, filenames) ∈ walk_list order fuel m top →
  ∃ below, root = top ++ below ∧ dirs_down m top below = true.
Proof.
  revert top. induction fuel as [|fuel IH]; intros top; cbn [walk_list].
  - by intros ?%elem_of_nil.
  - destruct (scan order m top) as [[ds fns]|] eqn:Es; [|by intros ?%elem_of_nil].
    destruct (scan_Some _ _ _ _ _ Es) as (Htop & _).
    intros [(d & Hd & Hin)%elem_of_flat_map|[= -> ->]%list_elem_of_singleton]%elem_of_app.
    + destruct (IH _ Hin) as (below & -> & Hdown). exists (d :: below). split.
      * unfold joinpath. by rewrite <- app_assoc.
      * cbn [dirs_down]. rewrite Hdown. by rewrite bool_decide_true.
    + exists []. split; [by rewrite app_nil_r|].
      cbn [dirs_down]. by rewrite bool_decide_true.
Qed.

Lemma walk_list_reaches (order : Scandir) (fuel : nat) (m : gmap Path node)
    (top : Path) (below : list string) :
  deep_enough m fuel top → dirs_down m top below = true →
  ∃ filenames, (top ++ below, filenames) ∈ walk_list order (S fuel) m top.
Proof.
  revert fuel top. induction below as [|d below IH]; intros fuel top Hdeep Hdown.
  - apply dirs_down_top in Hdown. cbn [walk_list]. unfold scan. rewrite Hdown.
    eexists. rewrite app_nil_r. apply elem_of_app. right.
    by apply list_elem_of_singleton.
  - pose proof (dirs_down_top _ _ _ Hdown) as Htop.
    cbn [dirs_down] in Hdown. apply andb_true_iff in Hdown as [_ Hdown].
    pose proof (dirs_down_top _ _ _ Hdown) as Hd.
    destruct (deep_enough_child _ _ _ _ Hdeep Hd) as (fuel' & -> & Hdeep').
    destruct (IH _ _ Hdeep' Hdown) as (filenames & Hin).
    exists filenames.
    change (walk_list order (S (S fuel')) m top)
      with (match scan order m top with
            | None => []
            | Some (dirnames, filenames) =>
                flat_map (λ d, walk_list order (S fuel') m (joinpath top d))
                  dirnames ++ [(top, filenames)]
            end).
    destruct (scan order m top) as [[ds fns]|] eqn:Es.
    + destruct (scan_Some _ _ _ _ _ Es) as (_ & _ & _ & Hds & _).
      apply elem_of_app. left. apply elem_of_flat_map. exists d.
      split; [by apply Hds|].
      replace (top ++ d :: below) with (joinpath top d ++ below); [done|].
      unfold joinpath. by rewrite <- app_assoc.
    + unfold scan in Es. by rewrite Htop in Es.
Qed.

(** What a run handles.  The files a run over a file system that stays
    as it is handles are the regular files whose name matches the
    pattern, in the source directory and in every directory below it
    that the walk comes to through directories; none is handled twice. *)
Theorem walk_collects_exactly (fnmatch : string → string → bool)
    (order : Scandir) (pattern : string) (m : gmap Path node) (src : Path) :
  let files := matched fnmatch pattern (snapshot order m src) in
  NoDup files
  ∧ ∀ root name,
      (root, name) ∈ files
      ↔ (∃ below, root = src ++ below ∧ dirs_down m src below = true)
        ∧ is_file m (joinpath root name) = true
        ∧ fnmatch name pattern = true.
Proof.
  intros files. split.
  - destruct (snapshot_sources fnmatch order pattern m src) as (_ & Hnd & _).
    by apply NoDup_fmap_1 in Hnd.
  - intros root name. unfold files. rewrite elem_of_matched. split.
    + intros (fns & Hin & Hn & Hm). unfold snapshot in Hin.
      pose proof (walk_list_way _ _ _ _ _ _ Hin) as Hway.
      apply walk_list_entry in Hin as (_ & _ & _ & Hf).
      split_and!; [done| |done]. apply Hf in Hn. by destruct (is_file _ _).
    + intros ((below & -> & Hdown) & Hfile & Hm).
      destruct (walk_list_reaches order _ m src below
                  (deep_enough_walk_fuel m src) Hdown) as (fns & Hin).
      exists fns. split_and!; [done| |done].
      apply walk_list_entry in Hin as (_ & _ & _ & Hf). apply Hf.
      by rewrite Hfile.
Qed.

(** No matching file is left out.  When the destination is a directory
    that is not the source directory and does not lie below it, a regular
    file whose name matches, in a directory the walk of the source comes
    to, is in the destination after the run, with its bytes and under its
    name or its name with an index. *)
Theorem rcopy_collects_every_match (fnmatch : string → string → bool)
    (order : Scandir) (pattern : string) (src dst : Path)
    (move quiet : bool) (w : world) (below : list string) (name : string) :
  ¬ src `prefix_of` dst →
  fs w !! dst = Some Directory →
  dirs_down (fs w) src below = true →
  is_file (fs w) (joinpath (src ++ below) name) = true →
  fnmatch name pattern = true →
  let r := rcopy fnmatch order pattern src dst move quiet false w in
  ∃ k content,
    fs w !! joinpath (src ++ below) name = Some (File content)
    ∧ fs r.2 !! joinpath dst (candidate name (Z.of_nat k))
      = Some (File content).
Proof.
  intros Hout Hdst Hdown Hfile Hm r. unfold r. rewrite rcopy_outside by done.
  set (files := matched fnmatch pattern (snapshot order (fs w) src)).
  destruct (snapshot_sources fnmatch order pattern (fs w) src)
    as (Hfiles & Hnd & _). fold files in Hfiles, Hnd.
  destruct (for_matched_places files dst move quiet 0 w)
    as [_ Hall]; [done|done|done|by apply sources_outside|].
  assert (Hin : (src ++ below, name) ∈ files).
  { apply elem_of_matched.
    destruct (walk_list_reaches order _ (fs w) src below
                (deep_enough_walk_fuel (fs w) src) Hdown) as (fns & Hin).
    exists fns. split_and!; [done| |done].
    apply walk_list_entry in Hin as (_ & _ & _ & Hf). apply Hf.
    by rewrite Hfile. }
  rewrite Forall_forall in Hall.
  destruct (Hall _ Hin) as (k & content & H1 & H2 & _). by exists k, content.
Qed.

Lemma rcopy_collects_every_match_witness :
  let r := rcopy fnmatchcase (ranked ["1"; "2"; "3"; "4"]) "*.txt"
             ["src"] ["dest"] false true false scenario_world in
  ∃ k content,
    fs scenario_world !! joinpath (["src"] ++ ["4"; "1"]) "c.txt"
    = Some (File content)
    ∧ fs r.2 !! joinpath ["dest"] (candidate "c.txt" (Z.of_nat k))
      = Some (File content).
Proof.
  apply (rcopy_collects_every_match fnmatchcase (ranked ["1"; "2"; "3"; "4"])
           "*.txt" ["src"] ["dest"] false true scenario_world
           ["4"; "1"] "c.txt").
  - apply (bool_decide_unpack _). vm_compute. exact I.
  - reflexivity.
  - vm_compute. reflexivity.
  - vm_compute. reflexivity.
  - vm_compute. reflexivity.
Defined.

(** Moving leaves nothing to collect.  After a moving run into a
    directory that is not the source directory and does not lie below
    it, a further run with the same pattern, source and destination,
    whatever its options, returns 0, prints nothing and changes
    nothing. *)
Theorem rcopy_move_then_nothing (fnmatch : string → string → bool)
    (order : Scandir) (pattern : string) (src dst : Path)
    (quiet move' quiet' dryrun' : bool) (w : world) :
  ¬ src `prefix_of` dst →
  fs w !! dst = Some Directory →
  let first := rcopy fnmatch order pattern src dst true quiet false w in
  rcopy fnmatch order pattern src dst move' quiet' dryrun' first.2
  = (Return 0, first.2).
Proof.
  intros Hout Hdst first.
  assert (Hfirst : first = for_matched
            (matched fnmatch pattern (snapshot order (fs w) src))
            dst true quiet false 0 w).
  { unfold first. by rewrite rcopy_outside. }
  set (files := matched fnmatch pattern (snapshot order (fs w) src)) in *.
  destruct (snapshot_sources fnmatch order pattern (fs w) src)
    as (Hfiles & Hnd & _). fold files in Hfiles, Hnd.
  destruct (for_matched_places files dst true quiet 0 w)
    as [_ Hall]; [done|done|done|by apply sources_outside|].
  cbv zeta in Hall. rewrite <- Hfirst in Hall.
  rewrite rcopy_outside by done.
  assert (Hnone : matched fnmatch pattern (snapshot order (fs first.2) src)
                  = []).
  { apply elem_of_nil_inv. intros [root name] Hin.
    pose proof Hin as Hin'. apply elem_of_matched in Hin' as (fns & Hw & Hn & Hm).
    unfold snapshot in Hw.
    destruct (walk_list_way _ _ _ _ _ _ Hw) as (below & -> & Hdown).
    apply walk_list_entry in Hw as (_ & _ & _ & Hf). apply Hf in Hn.
    rewrite (dirs_down_agree _ (fs w)) in Hdown.
    2:{ intros q. rewrite Hfirst. apply for_matched_directory. }
    assert (Hne : ¬ entry_of dst (joinpath (src ++ below) name)).
    { intros [name' Heq]. apply joinpath_eq in Heq as [Heq _].
      apply Hout. rewrite <- Heq. by apply prefix_app_r. }
    destruct (decide (joinpath (src ++ below) name ∈ sources files))
      as [Hs|Hs].
    - apply list_elem_of_fmap in Hs as ([root' name'] & Heq & Hrf).
      rewrite Forall_forall in Hall.
      destruct (Hall _ Hrf) as (k & c & _ & _ & Hgone).
      cbn [fst snd] in Heq, Hgone. rewrite <- Heq in Hgone.
      unfold is_file in Hn. by rewrite Hgone in Hn.
    - assert (Hsame : fs first.2 !! joinpath (src ++ below) name
                      = fs w !! joinpath (src ++ below) name).
      { rewrite Hfirst. by apply for_matched_frame. }
      apply Hs. apply list_elem_of_fmap. exists (src ++ below, name).
      split; [done|]. apply elem_of_matched.
      destruct (walk_list_reaches order _ (fs w) src below
                  (deep_enough_walk_fuel (fs w) src) Hdown) as (fns' & Hin2).
      exists fns'. split_and!; [done| |done].
      apply walk_list_entry in Hin2 as (_ & _ & _ & Hf2). apply Hf2.
      unfold is_file in *. by rewrite <- Hsame. }
  rewrite Hnone. done.
Qed.

Lemma rcopy_move_then_nothing_witness :
  let first := rcopy fnmatchcase (ranked ["1"; "2"; "3"; "4"]) "*.txt"
                 ["src"] ["dest"] true false false scenario_world in
  rcopy fnmatchcase (ranked ["1"; "2"; "3"; "4"]) "*.txt" ["src"] ["dest"]
    false false false first.2
  = (Return 0, first.2).
Proof.
  apply (rcopy_move_then_nothing fnmatchcase (ranked ["1"; "2"; "3"; "4"])
           "*.txt" ["src"] ["dest"] false false false false scenario_world).
  - apply (bool_decide_unpack _). vm_compute. exact I.
  - reflexivity.
Defined.

(** ** The name sequencer and the extension *)

(** The index keeps the extension.  Of a name that has an extension,
    every candidate has that extension, and its stem is the stem of the
    name followed by the index in parentheses (by nothing at index
    0). *)
Theorem candidate_keeps_suffix (name : string) (index : Z) :
  has_suffix name = true →
  has_suffix (candidate name index) = true
  ∧ suffix (candidate name index) = suffix name
  ∧ stem (candidate name index) = stem name +:+ index_text index.
Proof.
  intros Hs.
  assert (Hne : suffix name ≠ "").
  { unfold suffix. rewrite Hs. unfold has_suffix in Hs.
    apply andb_true_iff in Hs as [H0%Z.ltb_lt _].
    destruct (StrFacts.drop_rfind dot name) as (t & -> & _); [lia|done]. }
  destruct (suffix_shape name Hne) as (ext & Hext & Hext_ne & Hm & Hstem).
  assert (Hc : candidate name index
               = (stem name +:+ index_text index) +:+ String dot ext).
  { unfold candidate. fold (index_text index).
    by rewrite Hext, StrFacts.app_assoc. }
  set (pre := stem name +:+ index_text index) in *.
  pose proof (rfind_app_last dot pre ext Hm) as Hr.
  assert (Hpre : (0 < String.length pre)%nat).
  { unfold pre. rewrite StrFacts.length_app.
    destruct (stem name); [done|cbn; lia]. }
  assert (Hlen : (0 < String.length ext)%nat).
  { destruct ext; [done|cbn; lia]. }
  assert (Hhas : has_suffix (candidate name index) = true).
  { unfold has_suffix. rewrite Hc, Hr. unfold Str.len.
    rewrite StrFacts.length_app. cbn [String.length].
    apply andb_true_iff. split; [apply Z.ltb_lt|apply Z.ltb_lt]; lia. }
  split_and!; [done| |].
  - unfold suffix at 1. rewrite Hhas, Hc, Hr. unfold Str.len.
    rewrite Nat2Z.id, drop_length_app. done.
  - unfold stem at 1. rewrite Hhas, Hc, Hr. unfold Str.len.
    rewrite Nat2Z.id, take_length_app. done.
Qed.

Lemma candidate_keeps_suffix_witness :
  has_suffix (candidate "abc.tar.gz" 12) = true
  ∧ suffix (candidate "abc.tar.gz" 12) = suffix "abc.tar.gz"
  ∧ stem (candidate "abc.tar.gz" 12) = stem "abc.tar.gz" +:+ index_text 12.
Proof.
  apply (candidate_keeps_suffix "abc.tar.gz" 12). reflexivity.
Defined.

(** A bound below 0.  No index is ever equal to it: the generator yields
    what the unbounded one yields and does not stop. *)
Theorem sequencer_negative_unbounded (name : string) (m : Z) (n : nat) :
  m < 0 →
  islice n (filenames_with_index name (Some m))
  = islice n (filenames_with_index name None)
  ∧ stops_within n (filenames_with_index name (Some m)) = false.
Proof.
  intros Hm.
  change (filenames_with_index name (Some m)) with (gen_at name (Some m) 0).
  change (filenames_with_index name None) with (gen_at name None 0).
  assert (Hnever : ∀ j, (0 ≤ j < 0 + n)%nat → stops_at (Some m) j = false).
  { intros [|j] _; cbn; [done|]. apply Z.eqb_neq. lia. }
  rewrite !islice_gen_at, stops_within_gen_at;
    [done|done|by intros [|?] _|done].
Qed.

Lemma sequencer_negative_unbounded_witness :
  islice 5 (filenames_with_index "abc.txt" (Some (-1)))
  = islice 5 (filenames_with_index "abc.txt" None)
  ∧ stops_within 5 (filenames_with_index "abc.txt" (Some (-1))) = false.
Proof.
  apply (sequencer_negative_unbounded "abc.txt" (-1) 5). lia.
Defined.

(** ** [main] *)

(** With [--dryrun], [main] returns 0 and leaves the file system as it
    is, whatever the source and the destination are. *)
Theorem main_dryrun (fnmatch : string → string → bool) (order : Scandir)
    (args : Namespace) (w : world) :
  args_dryrun args = true →
  let r := main fnmatch order args w in
  r.1 = Return 0 ∧ fs r.2 = fs w.
Proof.
  intros Hdry r. unfold r, main. rewrite bind_unfold, Hdry.
  by rewrite rcopy_dryrun, for_matched_dryrun.
Qed.

Lemma main_dryrun_witness :
  let r := main fnmatchcase (ranked ["1"; "2"; "3"; "4"])
             (MkNamespace true true false "*.txt" ["src"] ["nodest"])
             scenario_world in
  r.1 = Return 0 ∧ fs r.2 = fs scenario_world.
Proof.
  apply (main_dryrun fnmatchcase (ranked ["1"; "2"; "3"; "4"])
           (MkNamespace true true false "*.txt" ["src"] ["nodest"])
           scenario_world).
  reflexivity.
Defined.

(** ** The sources of a run are regular files *)



